(** * CSR matrices of dgl/aten/csr.h

    A shallow embedding of [include/dgl/aten/csr.h]: the [CSRMatrix] struct
    with its constructor, [CheckValidity], [Load], [Save] and [CopyTo], and
    the inline routines [CSRHasData], [CSRGetAllData] and [CSRSort].  The
    routines that csr.h only declares ([CSRGetData], [CSRGetDataAndIndices],
    [CSRTranspose], [CSRSort_], [CSRRowWiseSampling]) are modelled from the
    specification of the repository and marked as such.

    Arrays are reference-counted handles to buffers in the source.  The
    model keeps the buffers in an explicit store and the handles as indices
    into it, so that sharing a buffer and copying it are different things.
    A failed [CHECK] is fatal in the source; here it is an [Err] result. *)

From Stdlib Require Import ZArith String Permutation Lia.
From stdpp Require Import base option list.

Local Open Scope string_scope.
Local Open Scope list_scope.
Local Open Scope Z_scope.

(** ** Results of fallible code *)

Inductive Fault :=
| NullHandle                 (* access through an array handle that owns no buffer *)
| CheckFailed (msg : string) (* a CHECK of the source did not hold *).

Inductive Result (A : Type) :=
| Ok (a : A)
| Err (f : Fault).
Arguments Ok {A} a.
Arguments Err {A} f.

(** The error monad of the development; [x ← c; k] and [c;; k] are
    stdpp's notations for its bind. *)
#[global] Instance Result_bind : MBind Result := fun A B k r =>
  match r with
  | Ok a => k a
  | Err f => Err f
  end.

(** [CHECK(cond) << msg] *)
Definition CHECK (cond : bool) (msg : string) : Result unit :=
  if cond then Ok tt else Err (CheckFailed msg).

(** ** Buffers and handles *)

(** Modelled from the spec: the element type descriptor of a buffer
    ([x->dtype] in csr.h, which reads its [bits]); the declaration is in a
    header that csr.h includes. *)
Record DLDataType := { code : Z; bits : Z; lanes : Z }.

(** Modelled from the spec: the device/location tag of a buffer ([x->ctx]
    in csr.h); the declaration is in a header that csr.h includes. *)
Record DLContext := { device_type : Z; device_id : Z }.

Definition DLDataType_eqb (a b : DLDataType) : bool :=
  (code a =? code b) && (bits a =? bits b) && (lanes a =? lanes b).
Definition DLContext_eqb (a b : DLContext) : bool :=
  (device_type a =? device_type b) && (device_id a =? device_id b).

(** Modelled from the spec: a buffer of integers with its element type and
    its location.  Index arrays are one-dimensional: [shape[0]] is the
    number of elements. *)
Record DLTensor := { dtype : DLDataType; ctx : DLContext; elems : list Z }.

Definition shape0 (t : DLTensor) : Z := Z.of_nat (length (elems t)).

(** The store of buffers, and array handles.  [None] is the handle that
    owns no buffer. *)
Abbreviation Heap := (list DLTensor).
Definition IdArray := option nat.

Definition deref (h : Heap) (a : IdArray) : Result DLTensor :=
  match a with
  | None => Err NullHandle
  | Some l =>
      match h !! l with
      | Some t => Ok t
      | None => Err NullHandle
      end
  end.

(** What a handle shows of the store: the buffer, if there is one. *)
Definition contents (h : Heap) (a : IdArray) : option DLTensor :=
  match a with
  | None => None
  | Some l => h !! l
  end.

Definition alloc (h : Heap) (t : DLTensor) : IdArray * Heap :=
  (Some (length h), h ++ [t]).

(** Modelled from the spec: [NullArray] of array_ops.h.  The spec calls
    the data array optional (absent, or present); the null array is the
    handle that owns no buffer. *)
Definition NullArray : IdArray := None.

(** Modelled from the spec: [IsNullArray] of array_ops.h; [HasData] is
    true iff a data array is present. *)
Definition IsNullArray (a : IdArray) : bool :=
  match a with
  | None => true
  | Some _ => false
  end.

(** Modelled from the spec: [NDArray::CopyTo] of the buffer runtime.  A
    copy is a new, independently owned buffer with the same element type
    and elements, at the target location. *)
Definition NDArray_CopyTo (h : Heap) (a : IdArray) (c : DLContext)
  : Result (IdArray * Heap) :=
  t ← deref h a;
  Ok (alloc h {| dtype := dtype t; ctx := c; elems := elems t |}).

(** Modelled from the spec: [NDArray::Clone] of the buffer runtime, a new
    buffer with the same element type, location and elements. *)
Definition NDArray_Clone (h : Heap) (a : IdArray) : Result (IdArray * Heap) :=
  t ← deref h a;
  Ok (alloc h t).

(** ** The matrix *)

Definition kDGLSerialize_AtenCsrMatrixMagic : Z := 0xDD6cd31205dff127.

(** The struct.  Its 64-bit fields are integers here; the only arithmetic
    on them in csr.h is [num_rows + 1]. *)
Record CSRMatrix := {
  num_rows : Z;
  num_cols : Z;
  indptr : IdArray;
  indices : IdArray;
  data : IdArray;
  sorted : bool
}.

(** [CSRMatrix() = default]: the member initialisers of the struct. *)
Definition CSRMatrix_default : CSRMatrix :=
  {| num_rows := 0; num_cols := 0;
     indptr := None; indices := None; data := None;
     sorted := false |}.

(** Modelled from the spec: [CHECK_SAME_DTYPE] of macro.h; the two arrays
    share the same element type. *)
Definition CHECK_SAME_DTYPE (h : Heap) (a b : IdArray) (msg : string)
  : Result unit :=
  x ← deref h a;
  y ← deref h b;
  CHECK (DLDataType_eqb (dtype x) (dtype y)) msg.

(** Modelled from the spec: [CHECK_SAME_CONTEXT] of macro.h; the two
    arrays share the same device/location. *)
Definition CHECK_SAME_CONTEXT (h : Heap) (a b : IdArray) (msg : string)
  : Result unit :=
  x ← deref h a;
  y ← deref h b;
  CHECK (DLContext_eqb (ctx x) (ctx y)) msg.

(** Modelled from the spec: the element type, a signed integer of [bits]
    bits, can represent values up to [v] without overflow. *)
Definition fits (dt : DLDataType) (v : Z) : bool :=
  v <=? 2 ^ (bits dt - 1) - 1.

(** Modelled from the spec: [CHECK_NO_OVERFLOW] of macro.h. *)
Definition CHECK_NO_OVERFLOW (dt : DLDataType) (v : Z) (msg : string)
  : Result unit :=
  CHECK (fits dt v) msg.

Definition CheckValidity (h : Heap) (m : CSRMatrix) : Result unit :=
  CHECK_SAME_DTYPE h (indptr m) (indices m) "CHECK_SAME_DTYPE(indptr, indices)";;
  CHECK_SAME_CONTEXT h (indptr m) (indices m) "CHECK_SAME_CONTEXT(indptr, indices)";;
  (if negb (IsNullArray (data m)) then
     CHECK_SAME_DTYPE h (indptr m) (data m) "CHECK_SAME_DTYPE(indptr, data)";;
     CHECK_SAME_CONTEXT h (indptr m) (data m) "CHECK_SAME_CONTEXT(indptr, data)"
   else Ok tt);;
  p ← deref h (indptr m);
  CHECK_NO_OVERFLOW (dtype p) (num_rows m) "CHECK_NO_OVERFLOW(indptr->dtype, num_rows)";;
  CHECK_NO_OVERFLOW (dtype p) (num_cols m) "CHECK_NO_OVERFLOW(indptr->dtype, num_cols)";;
  CHECK (shape0 p =? num_rows m + 1) "CHECK_EQ(indptr->shape[0], num_rows + 1)".

(** The constructor from arrays: member initialisers, then
    [CheckValidity]. *)
Definition CSRMatrix_new (h : Heap) (nrows ncols : Z)
    (parr iarr darr : IdArray) (sorted_flag : bool) : Result CSRMatrix :=
  let this := {| num_rows := nrows; num_cols := ncols;
                 indptr := parr; indices := iarr; data := darr;
                 sorted := sorted_flag |} in
  CheckValidity h this;;
  Ok this.

(** ** Streams *)

(** Modelled from the spec: the byte-stream collaborator ([dmlc::Stream]),
    at the level of the fields of the persisted record: a 64-bit unsigned,
    a 64-bit signed, an array or a bool.  An array field keeps the buffer
    handed to the stream ([None] for the null array). *)
Inductive Field :=
| FU64 (v : Z)
| FI64 (v : Z)
| FArray (a : option DLTensor)
| FBool (b : bool).

Abbreviation Stream := (list Field).

(** Modelled from the spec: [fs->Write(x)] appends a field. *)
Definition Write (fs : Stream) (f : Field) : Stream := fs ++ [f].

(** Modelled from the spec: [fs->Read(&x)] takes the next field when it has
    the type of [x], and fails otherwise.  The fields stand for the bytes
    that [Save] writes: a read meets the field it expects or the end of the
    stream, and what the source reads out of the bytes of a field of
    another type is outside the model. *)
Definition Read_u64 (fs : Stream) : option (Z * Stream) :=
  match fs with
  | FU64 v :: fs' => Some (v, fs')
  | _ => None
  end.

(** Modelled from the spec: [fs->Read(&x)] for a signed 64-bit [x]. *)
Definition Read_i64 (fs : Stream) : option (Z * Stream) :=
  match fs with
  | FI64 v :: fs' => Some (v, fs')
  | _ => None
  end.

(** Modelled from the spec: [fs->Read(&x)] for a bool [x]. *)
Definition Read_bool (fs : Stream) : option (bool * Stream) :=
  match fs with
  | FBool b :: fs' => Some (b, fs')
  | _ => None
  end.

(** Modelled from the spec: [fs->Read(&x)] for an array [x]; the array
    read has a buffer of its own. *)
Definition Read_array (h : Heap) (fs : Stream)
  : option (IdArray * Heap * Stream) :=
  match fs with
  | FArray None :: fs' => Some (None, h, fs')
  | FArray (Some t) :: fs' => Some (alloc h t, fs')
  | _ => None
  end.

(** [CHECK(fs->Read(&x)) << msg] *)
Definition CHECK_Read {A} (r : option A) (msg : string) : Result A :=
  match r with
  | Some a => Ok a
  | None => Err (CheckFailed msg)
  end.

(** Assignments to the fields of [this]. *)
Definition set_num_cols (v : Z) (m : CSRMatrix) : CSRMatrix :=
  {| num_rows := num_rows m; num_cols := v; indptr := indptr m;
     indices := indices m; data := data m; sorted := sorted m |}.
Definition set_num_rows (v : Z) (m : CSRMatrix) : CSRMatrix :=
  {| num_rows := v; num_cols := num_cols m; indptr := indptr m;
     indices := indices m; data := data m; sorted := sorted m |}.
Definition set_indptr (a : IdArray) (m : CSRMatrix) : CSRMatrix :=
  {| num_rows := num_rows m; num_cols := num_cols m; indptr := a;
     indices := indices m; data := data m; sorted := sorted m |}.
Definition set_indices (a : IdArray) (m : CSRMatrix) : CSRMatrix :=
  {| num_rows := num_rows m; num_cols := num_cols m; indptr := indptr m;
     indices := a; data := data m; sorted := sorted m |}.
Definition set_data (a : IdArray) (m : CSRMatrix) : CSRMatrix :=
  {| num_rows := num_rows m; num_cols := num_cols m; indptr := indptr m;
     indices := indices m; data := a; sorted := sorted m |}.
Definition set_sorted (b : bool) (m : CSRMatrix) : CSRMatrix :=
  {| num_rows := num_rows m; num_cols := num_cols m; indptr := indptr m;
     indices := indices m; data := data m; sorted := b |}.

(** [Load] assigns the fields of [this] one read after the other and
    returns true; the model returns the matrix, the store and the rest of
    the stream. *)
Definition Load (h : Heap) (this : CSRMatrix) (fs : Stream)
  : Result (CSRMatrix * Heap * Stream) :=
  '(magicNum, fs) ← CHECK_Read (Read_u64 fs) "Invalid Magic Number";
  CHECK (magicNum =? kDGLSerialize_AtenCsrMatrixMagic) "Invalid CSRMatrix Data";;
  '(v, fs) ← CHECK_Read (Read_i64 fs) "Invalid num_cols";
  let this := set_num_cols v this in
  '(v, fs) ← CHECK_Read (Read_i64 fs) "Invalid num_rows";
  let this := set_num_rows v this in
  '(a, h, fs) ← CHECK_Read (Read_array h fs) "Invalid indptr";
  let this := set_indptr a this in
  '(a, h, fs) ← CHECK_Read (Read_array h fs) "Invalid indices";
  let this := set_indices a this in
  '(a, h, fs) ← CHECK_Read (Read_array h fs) "Invalid data";
  let this := set_data a this in
  '(b, fs) ← CHECK_Read (Read_bool fs) "Invalid sorted";
  let this := set_sorted b this in
  CheckValidity h this;;
  Ok (this, h, fs).

(** [Save]: one [Write] per statement of the source. *)
Definition Save (h : Heap) (this : CSRMatrix) (fs : Stream) : Stream :=
  let fs := Write fs (FU64 kDGLSerialize_AtenCsrMatrixMagic) in
  let fs := Write fs (FI64 (num_cols this)) in
  let fs := Write fs (FI64 (num_rows this)) in
  let fs := Write fs (FArray (contents h (indptr this))) in
  let fs := Write fs (FArray (contents h (indices this))) in
  let fs := Write fs (FArray (contents h (data this))) in
  let fs := Write fs (FBool (sorted this)) in
  fs.

(** [CopyTo]: the arguments of the constructor call are evaluated left to
    right (the source leaves the order open; the copies are independent). *)
Definition CopyTo (h : Heap) (this : CSRMatrix) (c : DLContext)
  : Result (CSRMatrix * Heap) :=
  p ← deref h (indptr this);
  if DLContext_eqb c (ctx p) then Ok (this, h)
  else
    '(parr, h1) ← NDArray_CopyTo h (indptr this) c;
    '(iarr, h2) ← NDArray_CopyTo h1 (indices this) c;
    '(darr, h3) ← (if IsNullArray (data this) then Ok (data this, h2)
                    else NDArray_CopyTo h2 (data this) c);
    ret ← CSRMatrix_new h3 (num_rows this) (num_cols this)
             parr iarr darr (sorted this);
    Ok (ret, h3).

(** [CSRHasData] *)
Definition CSRHasData (csr : CSRMatrix) : bool :=
  negb (IsNullArray (data csr)).

(** ** The arrays of a matrix, read from the store *)

(** Modelled from the spec: the data model of a matrix.  The routines
    below read the arrays of a matrix; [CSRData] is what they see: the
    shape, the elements of [indptr] and [indices], the elements of [data]
    when there is a data array, and the flag. *)
Record CSRData := {
  d_num_rows : Z;
  d_num_cols : Z;
  d_indptr : list Z;
  d_indices : list Z;
  d_data : option (list Z);
  d_sorted : bool
}.

(** The arrays of a matrix as the store has them. *)
Definition view (h : Heap) (m : CSRMatrix) : Result CSRData :=
  p ← deref h (indptr m);
  i ← deref h (indices m);
  d ← (if IsNullArray (data m) then Ok None
       else t ← deref h (data m); Ok (Some (elems t)));
  Ok {| d_num_rows := num_rows m; d_num_cols := num_cols m;
        d_indptr := elems p; d_indices := elems i; d_data := d;
        d_sorted := sorted m |}.

(** [l[i]] for a signed index. *)
Definition lookupZ {A} (l : list A) (i : Z) : option A :=
  if i <? 0 then None else l !! Z.to_nat i.

(** Row [r] occupies the positions [indptr[r] .. indptr[r+1] - 1]. *)
Definition row_range (mat : CSRData) (r : Z) : option (Z * Z) :=
  lo ← lookupZ (d_indptr mat) r;
  hi ← lookupZ (d_indptr mat) (r + 1);
  Some (lo, hi).

(** The positions of row [r]. *)
Definition row_positions (mat : CSRData) (r : Z) : list nat :=
  match row_range mat r with
  | Some (lo, hi) => seq (Z.to_nat lo) (Z.to_nat hi - Z.to_nat lo)
  | None => []
  end.

(** [indptr[r+1] - indptr[r]] *)
Definition degree (mat : CSRData) (r : Z) : Z :=
  match row_range mat r with
  | Some (lo, hi) => hi - lo
  | None => 0
  end.

(** The entry stored at a position: its column and its data id.  Without
    a data array the data id of position [j] is [j] itself. *)
Definition data_id (mat : CSRData) (j : nat) : option Z :=
  match d_data mat with
  | None => Some (Z.of_nat j)
  | Some l => l !! j
  end.

(** The column and the data id at position [j]. *)
Definition entry (mat : CSRData) (j : nat) : option (Z * Z) :=
  c ← d_indices mat !! j;
  d ← data_id mat j;
  Some (c, d).

(** The entries of row [r], in storage order. *)
Definition row_entries (mat : CSRData) (r : Z) : list (Z * Z) :=
  omap (entry mat) (row_positions mat r).

(** The data ids of the entries of row [r] at column [c], in storage
    order. *)
Definition matches (mat : CSRData) (r c : Z) : list Z :=
  snd <$> filter (fun e => e.1 = c) (row_entries mat r).

(** All entries [(row, col, data id)] in storage order. *)
Definition all_entries (mat : CSRData) : list (Z * Z * Z) :=
  r ← seqZ 0 (d_num_rows mat);
  (fun e => (r, e.1, e.2)) <$> row_entries mat r.

(** A sequence that never decreases. *)
Fixpoint nondecreasing (l : list Z) : bool :=
  match l with
  | a :: (b :: _) as t => (a <=? b) && nondecreasing t
  | _ => true
  end.

(** Modelled from the spec: the validity of the data model.  [indptr] has
    [num_rows + 1] elements, starts at 0, is non-decreasing and ends at the
    number of entries, which is the length of [indices] and of [data] when
    present. *)
Definition valid_csr (mat : CSRData) : bool :=
  (Z.of_nat (length (d_indptr mat)) =? d_num_rows mat + 1)
  && bool_decide (head (d_indptr mat) = Some 0)
  && nondecreasing (d_indptr mat)
  && bool_decide (last (d_indptr mat) = Some (Z.of_nat (length (d_indices mat))))
  && match d_data mat with
     | None => true
     | Some l => Nat.eqb (length l) (length (d_indices mat))
     end.

(** Modelled from the spec: every stored column id is in
    [0, num_cols). *)
Definition cols_in_range (mat : CSRData) : bool :=
  forallb (fun c => (0 <=? c) && (c <? d_num_cols mat)) (d_indices mat).

(** ** Lookup by (row, col) *)

(** Modelled from the spec: broadcasting of a batched query.  Equal
    lengths pair up elementwise; a sequence of length 1 is repeated to the
    length of the other. *)
Definition broadcast (rows cols : list Z) : option (list (Z * Z)) :=
  if Nat.eqb (length rows) (length cols) then Some (zip rows cols)
  else match rows, cols with
       | [r], _ => Some ((fun c => (r, c)) <$> cols)
       | _, [c] => Some ((fun r => (r, c)) <$> rows)
       | _, _ => None
       end.

(** Modelled from the spec: a query that does not broadcast is a contract
    violation. *)
Definition CHECK_broadcast (rows cols : list Z) : Result (list (Z * Z)) :=
  match broadcast rows cols with
  | Some q => Ok q
  | None => Err (CheckFailed "rows and cols do not broadcast")
  end.

(** Modelled from the spec: the value of [CSRGetData] at one query pair,
    the data id of a matching entry (the first in storage order, which the
    spec leaves to the implementation), or the sentinel -1 when no entry
    matches. *)
Definition get_data (mat : CSRData) (q : Z * Z) : Z :=
  match matches mat q.1 q.2 with
  | d :: _ => d
  | [] => -1
  end.

(** Modelled from the spec: [CSRGetData], declared in csr.h and defined
    elsewhere.  One value per query pair, in the order of the query. *)
Definition CSRGetData (mat : CSRData) (rows cols : list Z) : Result (list Z) :=
  q ← CHECK_broadcast rows cols;
  Ok (get_data mat <$> (q : list (Z * Z))).

(** Modelled from the spec: the matched (row, col, data id) triples of a
    query, one per matching entry of each query pair; a pair without a
    match contributes nothing. *)
Definition hits (mat : CSRData) (q : list (Z * Z)) : list (Z * Z * Z) :=
  '(r, c) ← q;
  (fun d => (r, c, d)) <$> matches mat r c.

(** Modelled from the spec: [CSRGetDataAndIndices], declared in csr.h and
    defined elsewhere.  Three parallel arrays (rows, cols, data ids) of the
    matched triples, of the element type and at the location of the
    matrix. *)
Definition CSRGetDataAndIndices (h : Heap) (mat : CSRMatrix) (rows cols : IdArray)
  : Result (list IdArray * Heap) :=
  v ← view h mat;
  p ← deref h (indptr mat);
  rs ← deref h rows;
  cs ← deref h cols;
  q ← CHECK_broadcast (elems rs) (elems cs);
  let out := hits v (q : list (Z * Z)) in
  let mk l := {| dtype := dtype p; ctx := ctx p; elems := l |} in
  let '(a0, h) := alloc h (mk ((fun e => e.1.1) <$> out)) in
  let '(a1, h) := alloc h (mk ((fun e => e.1.2) <$> out)) in
  let '(a2, h) := alloc h (mk ((fun e => e.2) <$> out)) in
  Ok ([a0; a1; a2], h).

(** A 64-bit value stored in an element of [nbits] bits keeps its low
    [nbits] bits (two's complement). *)
Definition wrap (nbits v : Z) : Z :=
  (v + 2 ^ (nbits - 1)) mod 2 ^ nbits - 2 ^ (nbits - 1).

(** Modelled from the spec: the type code of signed integers, of a header
    that csr.h includes. *)
Definition kDLInt : Z := 0.

(** Modelled from the spec: [VecToIdArray] of array_ops.h, an id array of
    the given element width at the given location, holding the given
    64-bit values as elements of that width. *)
Definition VecToIdArray (h : Heap) (vec : list Z) (nbits : Z) (c : DLContext)
  : IdArray * Heap :=
  alloc h {| dtype := {| code := kDLInt; bits := nbits; lanes := 1 |};
             ctx := c; elems := wrap nbits <$> vec |}.

(** [CSRGetAllData]: [rst[2]] of the vector that [CSRGetDataAndIndices]
    returns (a vector without a third element has no [rst[2]]; that case
    is a fault here). *)
Definition CSRGetAllData (h : Heap) (mat : CSRMatrix) (row col : Z)
  : Result (IdArray * Heap) :=
  p ← deref h (indptr mat);
  let nbits := bits (dtype p) in
  let c := ctx p in
  let '(rows, h) := VecToIdArray h [row] nbits c in
  let '(cols, h) := VecToIdArray h [col] nbits c in
  '(rst, h) ← CSRGetDataAndIndices h mat rows cols;
  match rst !! 2%nat with
  | Some a => Ok (a, h)
  | None => Err NullHandle
  end.

(** ** Transpose *)

(** Modelled from the spec: the prefix sum of the row degrees, [acc],
    [acc + l0], [acc + l0 + l1], ... *)
Fixpoint prefix_sums (acc : Z) (l : list Z) : list Z :=
  match l with
  | [] => [acc]
  | n :: l' => acc :: prefix_sums (acc + n) l'
  end.

(** Modelled from the spec: rows and columns swap roles. *)
Definition swap_entry (e : Z * Z * Z) : Z * Z * Z := (e.1.2, e.1.1, e.2).

(** Modelled from the spec: the entries that go to row [r], in the order
    in which they come. *)
Definition bucket (es : list (Z * Z * Z)) (r : Z) : list (Z * Z * Z) :=
  filter (fun e => e.1.1 = r) es.

(** Modelled from the spec: [CSRTranspose], declared in csr.h and defined
    elsewhere.  Rows and columns swap roles and the shape becomes
    (num_cols, num_rows).  One bucket per new row (old column): the new
    [indptr] is the prefix sum of the bucket sizes, and every entry is
    scattered into its bucket in storage order, with its data id.  The
    sorted flag is not carried over. *)
Definition CSRTranspose (csr : CSRData) : CSRData :=
  let es := swap_entry <$> all_entries csr in
  let bs := bucket es <$> seqZ 0 (d_num_cols csr) in
  {| d_num_rows := d_num_cols csr;
     d_num_cols := d_num_rows csr;
     d_indptr := prefix_sums 0 ((fun b => Z.of_nat (length b)) <$> bs);
     d_indices := (fun e => e.1.2) <$> concat bs;
     d_data := Some ((fun e => e.2) <$> concat bs);
     d_sorted := false |}.

(** ** Sort *)

(** Modelled from the spec: insertion into a sorted sequence, after the
    elements of smaller key and before those of equal or greater key. *)
Fixpoint insert_by {A} (key : A -> Z) (x : A) (l : list A) : list A :=
  match l with
  | [] => [x]
  | y :: l' => if key x <=? key y then x :: l else y :: insert_by key x l'
  end.

(** Modelled from the spec: a stable ascending sort by an integer key. *)
Fixpoint isort {A} (key : A -> Z) (l : list A) : list A :=
  match l with
  | [] => []
  | x :: l' => insert_by key x (isort key l')
  end.

(** Modelled from the spec: sorting the positions [lo .. hi - 1] of [l] in
    place. *)
Definition sort_segment {A} (key : A -> Z) (lo hi : nat) (l : list A) : list A :=
  if (lo <=? hi)%nat
  then take lo l ++ isort key (take (hi - lo) (drop lo l)) ++ drop hi l
  else l.

(** Modelled from the spec: sorting row after row, one segment per pair of
    neighbours of [indptr]. *)
Fixpoint sort_rows {A} (key : A -> Z) (ip : list Z) (l : list A) : list A :=
  match ip with
  | lo :: ((hi :: _) as ip') =>
      sort_rows key ip' (sort_segment key (Z.to_nat lo) (Z.to_nat hi) l)
  | _ => l
  end.

(** Modelled from the spec: writing the elements of a buffer in place. *)
Definition store (h : Heap) (a : IdArray) (l : list Z) : Heap :=
  match a with
  | Some loc =>
      alter (fun t => {| dtype := dtype t; ctx := ctx t; elems := l |}) loc h
  | None => h
  end.

(** Modelled from the spec: the arrays after the in-place sort.  Within
    every row the column indices are put in ascending order by a stable
    sort, and the data entries, if there is a data array, are permuted with
    them (an element without a partner in the other array stays where it
    is). *)
Definition sort_arrays (ip ix : list Z) (dx : option (list Z))
  : list Z * option (list Z) :=
  match dx with
  | Some dx =>
      let es := sort_rows fst ip (zip ix dx) in
      (es.*1 ++ drop (length es) ix, Some (es.*2 ++ drop (length es) dx))
  | None => (sort_rows id ip ix, None)
  end.

(** Modelled from the spec: [CSRSort_], declared in csr.h and defined
    elsewhere.  [indptr] is not touched and the buffers of [indices] and
    [data] are written in place.  The spec does not say whether the
    in-place sort also sets the sorted flag: [mark] is that choice. *)
Definition CSRSort_ (mark : bool) (h : Heap) (csr : CSRMatrix)
  : Result (CSRMatrix * Heap) :=
  p ← deref h (indptr csr);
  i ← deref h (indices csr);
  d ← (if CSRHasData csr then t ← deref h (data csr); Ok (Some (elems t))
       else Ok None);
  let '(ix, dx) := sort_arrays (elems p) (elems i) d in
  let h := store h (indices csr) ix in
  let h := match dx with
           | Some l => store h (data csr) l
           | None => h
           end in
  Ok (if mark then set_sorted true csr else csr, h).

(** [CSRSort]: the arguments of the constructor call are evaluated left to
    right. *)
Definition CSRSort (mark : bool) (h : Heap) (csr : CSRMatrix)
  : Result (CSRMatrix * Heap) :=
  if sorted csr then Ok (csr, h)
  else
    '(iarr, h1) ← NDArray_Clone h (indices csr);
    '(darr, h2) ← (if CSRHasData csr then NDArray_Clone h1 (data csr)
                   else Ok (data csr, h1));
    ret ← CSRMatrix_new h2 (num_rows csr) (num_cols csr)
            (indptr csr) iarr darr (sorted csr);
    CSRSort_ mark h2 ret.

(** ** Row-wise sampling *)

(** Modelled from the spec: the result of sampling, parallel sequences of
    rows, columns and data ids with the shape of the matrix sampled
    from. *)
Record COOData := {
  coo_num_rows : Z;
  coo_num_cols : Z;
  coo_row : list Z;
  coo_col : list Z;
  coo_data : list Z
}.

Section Sampling.
(* Weights are floating-point numbers in the source and the picks come
   from a random generator; the model leaves both open: [W] is the type
   of weights, [next] draws from a generator state, and [select] tells
   which of the candidates a draw picks, given their weights (no weights:
   uniform). *)
Context {W G : Type}.
Variable next : G -> nat * G.
Variable select : list W -> nat -> nat.

(** Modelled from the spec: the weights of the candidates, aligned with the
    data array; none when the weight sequence is empty. *)
Definition weights (prob : list W) (pool : list nat) : list W :=
  omap (fun j => prob !! j) pool.

(** Modelled from the spec: the candidate that a draw picks. *)
Definition pick_index (prob : list W) (pool : list nat) (d : nat) : nat :=
  (select (weights prob pool) d `mod` length pool)%nat.

(** Modelled from the spec: [k] draws without replacement; a candidate
    drawn leaves the pool. *)
Fixpoint pick_without_replacement (prob : list W) (k : nat)
    (pool : list nat) (g : G) : list nat * G :=
  match k, pool with
  | S k', _ :: _ =>
      let '(d, g) := next g in
      let i := pick_index prob pool d in
      let '(rest, g) := pick_without_replacement prob k' (delete i pool) g in
      (pool !!! i :: rest, g)
  | _, _ => ([], g)
  end.

(** Modelled from the spec: [k] draws with replacement. *)
Fixpoint pick_with_replacement (prob : list W) (k : nat)
    (pool : list nat) (g : G) : list nat * G :=
  match k, pool with
  | S k', _ :: _ =>
      let '(d, g) := next g in
      let i := pick_index prob pool d in
      let '(rest, g) := pick_with_replacement prob k' pool g in
      (pool !!! i :: rest, g)
  | _, _ => ([], g)
  end.

(** Modelled from the spec: the positions picked in one row.  Without
    replacement a row of degree below [num_samples] gives all its
    entries. *)
Definition pick_row (mat : CSRData) (r : Z) (num_samples : Z)
    (prob : list W) (replace : bool) (g : G) : list nat * G :=
  let pool := row_positions mat r in
  let k := Z.to_nat num_samples in
  if replace then pick_with_replacement prob k pool g
  else if degree mat r <? num_samples then (pool, g)
  else pick_without_replacement prob k pool g.

(** Modelled from the spec: one group of (row, col, data id) per requested
    row, the row value being the requesting row. *)
Fixpoint sample_rows (mat : CSRData) (rows : list Z) (num_samples : Z)
    (prob : list W) (replace : bool) (g : G) : list (list (Z * Z * Z)) * G :=
  match rows with
  | [] => ([], g)
  | r :: rows' =>
      let '(js, g) := pick_row mat r num_samples prob replace g in
      let grp := (fun e => (r, e.1, e.2)) <$> omap (entry mat) js in
      let '(rest, g) := sample_rows mat rows' num_samples prob replace g in
      (grp :: rest, g)
  end.

(** Modelled from the spec: [CSRRowWiseSampling], declared in csr.h and
    defined elsewhere.  For every requested row, [num_samples] entries
    of that row are drawn, with or without replacement; without
    replacement a row of smaller degree gives all its entries.  The row
    value of a sample is the requesting row. *)
Definition CSRRowWiseSampling (mat : CSRData) (rows : list Z)
    (num_samples : Z) (prob : list W) (replace : bool) (g : G)
  : COOData * G :=
  let '(grps, g) := sample_rows mat rows num_samples prob replace g in
  let out := concat grps in
  ({| coo_num_rows := d_num_rows mat;
      coo_num_cols := d_num_cols mat;
      coo_row := (fun e => e.1.1) <$> out;
      coo_col := (fun e => e.1.2) <$> out;
      coo_data := (fun e => e.2) <$> out |}, g).
End Sampling.

(** ** Examples *)

(** The matrix of the examples of csr.h, in a store and as read from it. *)
Definition int64 : DLDataType := {| code := kDLInt; bits := 64; lanes := 1 |}.
Definition cpu : DLContext := {| device_type := 1; device_id := 0 |}.
Definition gpu0 : DLContext := {| device_type := 2; device_id := 0 |}.
Definition array_of (c : DLContext) (l : list Z) : DLTensor :=
  {| dtype := int64; ctx := c; elems := l |}.

Definition example_heap : Heap :=
  [array_of cpu [0; 2; 3; 3; 5]; array_of cpu [1; 0; 2; 3; 1];
   array_of cpu [2; 3; 0; 1; 4]].
Definition example_csr : CSRMatrix :=
  {| num_rows := 4; num_cols := 4; indptr := Some 0%nat;
     indices := Some 1%nat; data := Some 2%nat; sorted := false |}.
Definition example_data : CSRData :=
  {| d_num_rows := 4; d_num_cols := 4; d_indptr := [0; 2; 3; 3; 5];
     d_indices := [1; 0; 2; 3; 1]; d_data := Some [2; 3; 0; 1; 4];
     d_sorted := false |}.

(** A matrix whose [indptr] has the right length and nothing else. *)
Definition unchecked_heap : Heap :=
  [array_of cpu [3; 1]; array_of cpu []; array_of cpu [7; 7]].
Definition unchecked_csr : CSRMatrix :=
  {| num_rows := 1; num_cols := 1; indptr := Some 0%nat;
     indices := Some 1%nat; data := Some 2%nat; sorted := false |}.

(** ** Predicates of the statements *)

(** The conditions of [CheckValidity] in words: [indptr] and [indices]
    have buffers of one element type at one location, so has [data] when
    it is not null, the element type can hold [num_rows] and [num_cols],
    and [indptr] has [num_rows + 1] elements. *)
Definition checked (h : Heap) (m : CSRMatrix) : Prop :=
  exists p i,
    contents h (indptr m) = Some p /\
    contents h (indices m) = Some i /\
    dtype p = dtype i /\ ctx p = ctx i /\
    (IsNullArray (data m) = false ->
       exists d, contents h (data m) = Some d /\
                 dtype p = dtype d /\ ctx p = ctx d) /\
    num_rows m <= 2 ^ (bits (dtype p) - 1) - 1 /\
    num_cols m <= 2 ^ (bits (dtype p) - 1) - 1 /\
    Z.of_nat (length (elems p)) = num_rows m + 1.

(** The validity of the spec's data model, for a matrix in a store: its
    arrays are there, [indptr] has [num_rows + 1] elements, starts at 0, is
    non-decreasing and ends at the length of [indices], which is the length
    of [data] when present. *)
Definition model_valid (h : Heap) (m : CSRMatrix) : Prop :=
  exists v, view h m = Ok v /\ valid_csr v = true.

(** The handle and the store after reading an array field. *)
Definition loaded (h : Heap) (a : option DLTensor) : IdArray * Heap :=
  match a with
  | None => (None, h)
  | Some t => alloc h t
  end.

(** A value that an element of [nbits] bits holds as it is. *)
Definition representable (nbits v : Z) : Prop :=
  - 2 ^ (nbits - 1) <= v < 2 ^ (nbits - 1).

(** The data id at position [j] when the entry there is at column [c]. *)
Definition match_at (mat : CSRData) (c : Z) (j : nat) : option Z :=
  e ← entry mat j;
  if decide (e.1 = c) then Some e.2 else None.

(** Every row segment is in ascending order of the key. *)
Fixpoint rows_sorted {A} (key : A -> Z) (ip : list Z) (l : list A) : bool :=
  match ip with
  | lo :: ((hi :: _) as ip') =>
      nondecreasing (key <$> take (Z.to_nat hi - Z.to_nat lo)
                               (drop (Z.to_nat lo) l))
      && rows_sorted key ip' l
  | _ => true
  end.

(** What [CSRSort] of an unsorted matrix shows: the arrays of the argument
    with every row sorted. *)
Definition sorted_data (mark : bool) (v : CSRData) : CSRData :=
  let '(ix, dx) := sort_arrays (d_indptr v) (d_indices v) (d_data v) in
  {| d_num_rows := d_num_rows v; d_num_cols := d_num_cols v;
     d_indptr := d_indptr v; d_indices := ix; d_data := dx;
     d_sorted := mark |}.

(** An entry without its row, and with it. *)
Definition strip (e : Z * Z * Z) : Z * Z := (e.1.2, e.2).
Definition tag (r : Z) (e : Z * Z) : Z * Z * Z := (r, e.1, e.2).

(** ** The host interchange record *)

(** Modelled from the spec: the generic sparse-matrix envelope of spmat.h,
    a format tag, the shape, an ordered list of index buffers and a flag
    list.  The field names are those that csr.h reads. *)
Module SparseMatrix.
Record t := mk {
  format : Z;
  num_rows : Z;
  num_cols : Z;
  indices : list IdArray;
  flags : list bool
}.
End SparseMatrix.

(** [v[k]] of a vector.  Indexing out of range has no defined result in the
    source; it is a fault here. *)
Definition vector_at {A} (v : list A) (k : nat) : Result A :=
  match v !! k with
  | Some x => Ok x
  | None => Err NullHandle
  end.

(** The constructor from a [SparseMatrix] object: member initialisers, then
    [CheckValidity]. *)
Definition CSRMatrix_of_SparseMatrix (h : Heap) (spmat : SparseMatrix.t)
  : Result CSRMatrix :=
  parr ← vector_at (SparseMatrix.indices spmat) 0;
  iarr ← vector_at (SparseMatrix.indices spmat) 1;
  darr ← vector_at (SparseMatrix.indices spmat) 2;
  s ← vector_at (SparseMatrix.flags spmat) 0;
  let this := {| num_rows := SparseMatrix.num_rows spmat;
                 num_cols := SparseMatrix.num_cols spmat;
                 indptr := parr; indices := iarr; data := darr;
                 sorted := s |} in
  CheckValidity h this;;
  Ok this.

(** [ToSparseMatrix]; [kCSR] is the value of [SparseFormat::kCSR] as a
    32-bit integer, an enumerator of a header that csr.h includes. *)
Definition ToSparseMatrix (kCSR : Z) (this : CSRMatrix) : SparseMatrix.t :=
  SparseMatrix.mk kCSR (num_rows this) (num_cols this)
    [indptr this; indices this; data this] [sorted this].

(** ** Predicates of the further statements *)

(** The messages of the reads of [Load], in the order of the fields. *)
Definition Load_messages : list string :=
  ["Invalid Magic Number"; "Invalid num_cols"; "Invalid num_rows";
   "Invalid indptr"; "Invalid indices"; "Invalid data"; "Invalid sorted"].

(** The data handle is null or has a buffer. *)
Definition data_live (h : Heap) (m : CSRMatrix) : Prop :=
  IsNullArray (data m) = true \/ is_Some (contents h (data m)).

(** A buffer with its location changed. *)
Definition relocated (c : DLContext) (t : DLTensor) : DLTensor :=
  {| dtype := dtype t; ctx := c; elems := elems t |}.

(** The conditions of [CheckValidity] without those on the location. *)
Definition checked_but_location (h : Heap) (m : CSRMatrix) : Prop :=
  exists p i,
    contents h (indptr m) = Some p /\
    contents h (indices m) = Some i /\
    dtype p = dtype i /\
    (IsNullArray (data m) = false ->
       exists d, contents h (data m) = Some d /\ dtype p = dtype d) /\
    num_rows m <= 2 ^ (bits (dtype p) - 1) - 1 /\
    num_cols m <= 2 ^ (bits (dtype p) - 1) - 1 /\
    Z.of_nat (length (elems p)) = num_rows m + 1.

(** A matrix whose arrays are at two locations. *)
Definition split_heap : Heap :=
  [array_of cpu [0; 1]; array_of gpu0 [0]].
Definition split_csr : CSRMatrix :=
  {| num_rows := 1; num_cols := 1; indptr := Some 0%nat;
     indices := Some 1%nat; data := None; sorted := false |}.

(** An array handle is null or has a buffer in the store (handles of the
    source always refer to a buffer that exists). *)
Definition array_live (h : Heap) (a : IdArray) : Prop :=
  IsNullArray a = true \/ is_Some (contents h a).

(** The arrays of a matrix have buffers at one location: [indptr] and
    [indices] have a buffer, and [data] is null or has one, all at the
    location of [indptr]. *)
Definition one_location (h : Heap) (m : CSRMatrix) : Prop :=
  exists p i,
    contents h (indptr m) = Some p /\
    contents h (indices m) = Some i /\
    ctx p = ctx i /\
    (IsNullArray (data m) = true \/
     exists d, contents h (data m) = Some d /\ ctx p = ctx d).

(** * Properties *)

(** ** The error monad *)

Lemma bind_Ok {A B} (r : Result A) (k : A -> Result B) (b : B) :
  r ≫= k = Ok b <-> exists a, r = Ok a /\ k a = Ok b.
Proof.
  destruct r as [a|f]; simpl; split.
  - intros H. exists a. auto.
  - intros (a' & Ha & Hk). congruence.
  - discriminate.
  - intros (a' & Ha & _). discriminate.
Qed.

Lemma CHECK_Ok (cond : bool) (msg : string) (u : unit) :
  CHECK cond msg = Ok u <-> cond = true.
Proof. destruct cond, u; simpl; split; congruence. Qed.

Lemma DLDataType_eqb_eq (a b : DLDataType) :
  DLDataType_eqb a b = true <-> a = b.
Proof.
  destruct a, b; unfold DLDataType_eqb; simpl.
  rewrite !andb_true_iff, !Z.eqb_eq. split.
  - intros [[-> ->] ->]. reflexivity.
  - intros [= -> -> ->]. auto.
Qed.

Lemma DLContext_eqb_eq (a b : DLContext) :
  DLContext_eqb a b = true <-> a = b.
Proof.
  destruct a, b; unfold DLContext_eqb; simpl.
  rewrite andb_true_iff, !Z.eqb_eq. split.
  - intros [-> ->]. reflexivity.
  - intros [= -> ->]. auto.
Qed.

Lemma DLContext_eqb_neq (a b : DLContext) :
  DLContext_eqb a b = false <-> a <> b.
Proof.
  rewrite <- DLContext_eqb_eq. destruct (DLContext_eqb a b); split; congruence.
Qed.

(** ** The store *)

Lemma deref_Ok (h : Heap) (a : IdArray) (t : DLTensor) :
  deref h a = Ok t <-> contents h a = Some t.
Proof.
  destruct a as [l|]; simpl; [destruct (h !! l)|]; split; congruence.
Qed.

Lemma contents_app (h h' : Heap) (a : IdArray) (t : DLTensor) :
  contents h a = Some t -> contents (h ++ h') a = Some t.
Proof.
  destruct a as [l|]; simpl; [|discriminate].
  intros H. rewrite lookup_app_l; [assumption|]. eapply lookup_lt_Some; eauto.
Qed.

Lemma deref_app (h h' : Heap) (a : IdArray) (t : DLTensor) :
  deref h a = Ok t -> deref (h ++ h') a = Ok t.
Proof. rewrite !deref_Ok. apply contents_app. Qed.

Lemma contents_alloc (h : Heap) (t : DLTensor) :
  contents (alloc h t).2 (alloc h t).1 = Some t.
Proof.
  unfold alloc. cbn [fst snd contents].
  rewrite lookup_app_r, Nat.sub_diag; [reflexivity|lia].
Qed.

Lemma contents_fresh (h : Heap) (t : DLTensor) :
  contents h (alloc h t).1 = None.
Proof. unfold alloc. cbn [fst contents]. apply lookup_ge_None. lia. Qed.

(** ** What [CheckValidity] checks *)

Lemma CHECK_SAME_DTYPE_Ok h a b msg u :
  CHECK_SAME_DTYPE h a b msg = Ok u <->
  exists x y, contents h a = Some x /\ contents h b = Some y /\ dtype x = dtype y.
Proof.
  unfold CHECK_SAME_DTYPE. rewrite bind_Ok. split.
  - intros (x & Hx & H). apply bind_Ok in H as (y & Hy & H).
    apply CHECK_Ok, DLDataType_eqb_eq in H. apply deref_Ok in Hx, Hy. eauto.
  - intros (x & y & Hx & Hy & E). apply deref_Ok in Hx, Hy.
    exists x. split; [assumption|]. apply bind_Ok. exists y. split; [assumption|].
    apply CHECK_Ok, DLDataType_eqb_eq, E.
Qed.

Lemma CHECK_SAME_CONTEXT_Ok h a b msg u :
  CHECK_SAME_CONTEXT h a b msg = Ok u <->
  exists x y, contents h a = Some x /\ contents h b = Some y /\ ctx x = ctx y.
Proof.
  unfold CHECK_SAME_CONTEXT. rewrite bind_Ok. split.
  - intros (x & Hx & H). apply bind_Ok in H as (y & Hy & H).
    apply CHECK_Ok, DLContext_eqb_eq in H. apply deref_Ok in Hx, Hy. eauto.
  - intros (x & y & Hx & Hy & E). apply deref_Ok in Hx, Hy.
    exists x. split; [assumption|]. apply bind_Ok. exists y. split; [assumption|].
    apply CHECK_Ok, DLContext_eqb_eq, E.
Qed.

Lemma CheckValidity_checked (h : Heap) (m : CSRMatrix) :
  CheckValidity h m = Ok tt <-> checked h m.
Proof.
  unfold CheckValidity, checked, CHECK_NO_OVERFLOW, fits, shape0. split.
  - intros H.
    apply bind_Ok in H as ([] & H1 & H). apply bind_Ok in H as ([] & H2 & H).
    apply bind_Ok in H as ([] & H3 & H). apply bind_Ok in H as (p & Hp & H).
    apply bind_Ok in H as ([] & H4 & H). apply bind_Ok in H as ([] & H5 & H).
    apply CHECK_Ok in H4, H5, H. apply Z.leb_le in H4, H5. apply Z.eqb_eq in H.
    apply deref_Ok in Hp.
    apply CHECK_SAME_DTYPE_Ok in H1 as (x & i & Hx & Hi & E1).
    apply CHECK_SAME_CONTEXT_Ok in H2 as (x' & i' & Hx' & Hi' & E2).
    assert (x = p) by congruence. assert (x' = p) by congruence.
    assert (i' = i) by congruence. subst x x' i'.
    exists p, i. repeat split; try assumption.
    intros Hn. rewrite Hn in H3. simpl in H3.
    apply bind_Ok in H3 as ([] & H6 & H7).
    apply CHECK_SAME_DTYPE_Ok in H6 as (y & d & Hy & Hd & E3).
    apply CHECK_SAME_CONTEXT_Ok in H7 as (y' & d' & Hy' & Hd' & E4).
    assert (y = p) by congruence. assert (y' = p) by congruence.
    assert (d' = d) by congruence. subst y y' d'. eauto.
  - intros (p & i & Hp & Hi & E1 & E2 & Hd & Hr & Hc & Hl).
    apply bind_Ok. exists tt. split; [apply CHECK_SAME_DTYPE_Ok; eauto|].
    apply bind_Ok. exists tt. split; [apply CHECK_SAME_CONTEXT_Ok; eauto|].
    apply bind_Ok. exists tt. split.
    { destruct (IsNullArray (data m)); simpl; [reflexivity|].
      destruct Hd as (d & Hd & E3 & E4); [reflexivity|].
      apply bind_Ok. exists tt. split; [apply CHECK_SAME_DTYPE_Ok; eauto|].
      apply CHECK_SAME_CONTEXT_Ok; eauto. }
    apply bind_Ok. exists p. split; [apply deref_Ok; assumption|].
    apply bind_Ok. exists tt. split; [apply CHECK_Ok, Z.leb_le; assumption|].
    apply bind_Ok. exists tt. split; [apply CHECK_Ok, Z.leb_le; assumption|].
    apply CHECK_Ok, Z.eqb_eq. assumption.
Qed.

Lemma CheckValidity_cases (h : Heap) (m : CSRMatrix) :
  CheckValidity h m = Ok tt \/ exists f, CheckValidity h m = Err f.
Proof. destruct (CheckValidity h m) as [[]|f]; eauto. Qed.

Lemma CSRMatrix_new_Ok h nrows ncols parr iarr darr s m :
  CSRMatrix_new h nrows ncols parr iarr darr s = Ok m <->
  m = {| num_rows := nrows; num_cols := ncols; indptr := parr;
         indices := iarr; data := darr; sorted := s |} /\
  CheckValidity h m = Ok tt.
Proof.
  unfold CSRMatrix_new. rewrite bind_Ok. split.
  - intros ([] & H & [= <-]). auto.
  - intros [-> H]. eauto.
Qed.

(** A store grows by allocation only: what a matrix that passed the
    checks shows stays what it is. *)
Lemma checked_app (h h' : Heap) (m : CSRMatrix) :
  checked h m -> checked (h ++ h') m.
Proof.
  intros (p & i & Hp & Hi & E1 & E2 & Hd & Hrest).
  exists p, i. repeat split; try tauto; try (apply contents_app; assumption).
  intros Hn. destruct (Hd Hn) as (d & Hd' & E). exists d.
  split; [apply contents_app; assumption|assumption].
Qed.

(** ** Serialization *)

(** C1. [Save] appends to the stream exactly seven fields in this order:
    the magic constant [kDGLSerialize_AtenCsrMatrixMagic], [num_cols],
    [num_rows], [indptr], [indices], [data] and the sorted flag; the number
    of columns comes before the number of rows. *)
Theorem Save_field_order (h : Heap) (this : CSRMatrix) (fs : Stream) :
  Save h this fs =
    fs ++ [ FU64 kDGLSerialize_AtenCsrMatrixMagic;
            FI64 (num_cols this);
            FI64 (num_rows this);
            FArray (contents h (indptr this));
            FArray (contents h (indices this));
            FArray (contents h (data this));
            FBool (sorted this) ]
  /\ kDGLSerialize_AtenCsrMatrixMagic = 0xDD6cd31205dff127.
Proof.
  split; [|reflexivity].
  unfold Save, Write. rewrite <- !app_assoc. reflexivity.
Qed.

Lemma Read_array_loaded (h : Heap) (a : option DLTensor) (fs : Stream) :
  Read_array h (FArray a :: fs) = Some (loaded h a, fs).
Proof. destruct a; reflexivity. Qed.

(** A [Load] that returns ends with a [CheckValidity] that holds. *)
Lemma Load_Ok_CheckValidity (h : Heap) (this : CSRMatrix) (fs : Stream)
    (m : CSRMatrix) (h' : Heap) (fs' : Stream) :
  Load h this fs = Ok (m, h', fs') -> CheckValidity h' m = Ok tt.
Proof.
  intros H. unfold Load in H.
  apply bind_Ok in H as ([magicNum fs1] & _ & H).
  apply bind_Ok in H as ([] & _ & H).
  apply bind_Ok in H as ([nc fs2] & _ & H).
  apply bind_Ok in H as ([nr fs3] & _ & H).
  apply bind_Ok in H as ([[parr h1] fs4] & _ & H).
  apply bind_Ok in H as ([[iarr h2] fs5] & _ & H).
  apply bind_Ok in H as ([[darr h3] fs6] & _ & H).
  apply bind_Ok in H as ([s fs7] & _ & H).
  apply bind_Ok in H as ([] & Hv & H).
  injection H as <- <- <-. exact Hv.
Qed.


(** C7. [Load] reads the magic value first.  On an exhausted stream it
    fails with "Invalid Magic Number", and when the value read is other
    than [kDGLSerialize_AtenCsrMatrixMagic] it fails with "Invalid CSRMatrix
    Data" whatever follows in the stream.  When the magic value is right
    and the six fields follow, the outcome of [Load] is the outcome of the
    checked constructor on the fields read, so a [Load] that returns has
    passed [CheckValidity]. *)
Theorem Load_magic_then_validity (h : Heap) (this : CSRMatrix) :
  Load h this [] = Err (CheckFailed "Invalid Magic Number") /\
  (forall v rest, v <> kDGLSerialize_AtenCsrMatrixMagic ->
     Load h this (FU64 v :: rest) = Err (CheckFailed "Invalid CSRMatrix Data")) /\
  (forall nc nr p i d s rest,
     let '(parr, h1) := loaded h p in
     let '(iarr, h2) := loaded h1 i in
     let '(darr, h3) := loaded h2 d in
     Load h this (FU64 kDGLSerialize_AtenCsrMatrixMagic :: FI64 nc :: FI64 nr
                    :: FArray p :: FArray i :: FArray d :: FBool s :: rest) =
       (m ← CSRMatrix_new h3 nr nc parr iarr darr s; Ok (m, h3, rest))) /\
  (forall fs m h' fs',
     Load h this fs = Ok (m, h', fs') -> CheckValidity h' m = Ok tt).
Proof.
  repeat split.
  - intros v rest H. unfold Load. simpl.
    apply Z.eqb_neq in H. rewrite H. reflexivity.
  - intros nc nr p i d s rest.
    destruct (loaded h p) as [parr h1] eqn:E1.
    destruct (loaded h1 i) as [iarr h2] eqn:E2.
    destruct (loaded h2 d) as [darr h3] eqn:E3.
    unfold Load. cbn [Read_u64 Read_i64 Read_bool CHECK_Read mbind Result_bind].
    rewrite Z.eqb_refl. cbn [CHECK mbind Result_bind].
    rewrite Read_array_loaded, E1. cbn [CHECK_Read mbind Result_bind].
    rewrite Read_array_loaded, E2. cbn [CHECK_Read mbind Result_bind].
    rewrite Read_array_loaded, E3. cbn [CHECK_Read mbind Result_bind].
    unfold CSRMatrix_new. simpl.
    destruct (CheckValidity h3 _) as [[]|f]; reflexivity.
  - intros fs m h' fs'. apply Load_Ok_CheckValidity.
Qed.

Lemma Load_magic_then_validity_witness :
  Load [] CSRMatrix_default []
    = Err (CheckFailed "Invalid Magic Number") /\
  Load [] CSRMatrix_default [FU64 7; FI64 4; FI64 4]
    = Err (CheckFailed "Invalid CSRMatrix Data") /\
  CheckValidity example_heap example_csr = Ok tt.
Proof.
  split; [|split].
  - apply (proj1 (Load_magic_then_validity [] CSRMatrix_default)).
  - apply (proj1 (proj2 (Load_magic_then_validity [] CSRMatrix_default))).
    discriminate.
  - apply (proj2 (proj2 (proj2 (Load_magic_then_validity [] CSRMatrix_default)))
             (Save example_heap example_csr []) example_csr example_heap []).
    reflexivity.
Defined.

(** ** Construction *)

(** C10. The default-constructed matrix is a plain value, built without
    [CheckValidity]: zero rows and columns, flag false, and three array
    handles that own no buffer.  Its [indptr] has no length at all, let
    alone [num_rows + 1]; [CheckValidity] does not hold of it in any store,
    and the checked constructor never returns it. *)
Theorem default_constructed_unchecked :
  num_rows CSRMatrix_default = 0 /\
  num_cols CSRMatrix_default = 0 /\
  sorted CSRMatrix_default = false /\
  indptr CSRMatrix_default = None /\
  indices CSRMatrix_default = None /\
  data CSRMatrix_default = None /\
  (forall h : Heap,
     contents h (indptr CSRMatrix_default) = None /\
     ~ (exists p, contents h (indptr CSRMatrix_default) = Some p /\
                  shape0 p = num_rows CSRMatrix_default + 1) /\
     CheckValidity h CSRMatrix_default = Err NullHandle /\
     forall nrows ncols parr iarr darr s,
       CSRMatrix_new h nrows ncols parr iarr darr s <> Ok CSRMatrix_default).
Proof.
  repeat split; try reflexivity.
  - intros (p & Hp & _). discriminate.
  - intros nrows ncols parr iarr darr s H.
    apply CSRMatrix_new_Ok in H as [_ H]. discriminate.
Qed.

(** Against C2 as stated: the constructor accepts an [indptr] of the right
    length that starts at 3, decreases to 1, and ends neither at the length
    of [indices] (0) nor at that of [data] (2). *)
Lemma constructor_accepts_malformed_indptr :
  CSRMatrix_new unchecked_heap 1 1 (Some 0%nat) (Some 1%nat) (Some 2%nat) false
    = Ok unchecked_csr /\
  view unchecked_heap unchecked_csr =
    Ok {| d_num_rows := 1; d_num_cols := 1; d_indptr := [3; 1];
          d_indices := []; d_data := Some [7; 7]; d_sorted := false |} /\
  ~ model_valid unchecked_heap unchecked_csr.
Proof.
  split; [reflexivity|]. split; [reflexivity|].
  intros (v & Hv & H). vm_compute in Hv. injection Hv as <-.
  vm_compute in H. discriminate.
Qed.

(** C2, amended.  A matrix that the constructor returns, and a matrix that
    [Load] returns, satisfies what [CheckValidity] checks: [indptr] has
    [num_rows + 1] elements, [indptr], [indices] and a non-null [data]
    share element type and location, and the element type can hold
    [num_rows] and [num_cols].  The constructor fails whenever one of these
    conditions does not hold. *)
Theorem constructed_is_checked (h : Heap) :
  (forall nrows ncols parr iarr darr s m,
     CSRMatrix_new h nrows ncols parr iarr darr s = Ok m ->
     checked h m /\
     exists p, contents h (indptr m) = Some p /\
               Z.of_nat (length (elems p)) = num_rows m + 1) /\
  (forall this fs m h' fs',
     Load h this fs = Ok (m, h', fs') -> checked h' m) /\
  (forall nrows ncols parr iarr darr s,
     ~ checked h {| num_rows := nrows; num_cols := ncols; indptr := parr;
                    indices := iarr; data := darr; sorted := s |} ->
     exists f, CSRMatrix_new h nrows ncols parr iarr darr s = Err f).
Proof.
  repeat split.
  - apply CSRMatrix_new_Ok in H as [_ H]. apply CheckValidity_checked, H.
  - apply CSRMatrix_new_Ok in H as [_ H]. apply CheckValidity_checked in H.
    destruct H as (p & i & Hp & _ & _ & _ & _ & _ & _ & Hl). eauto.
  - intros this fs m h' fs' H. apply CheckValidity_checked.
    eapply Load_Ok_CheckValidity, H.
  - intros nrows ncols parr iarr darr s H. unfold CSRMatrix_new.
    destruct (CheckValidity_cases h
      {| num_rows := nrows; num_cols := ncols; indptr := parr;
         indices := iarr; data := darr; sorted := s |}) as [E|[f E]].
    + apply CheckValidity_checked in E. contradiction.
    + rewrite E. eauto.
Qed.

Lemma constructed_is_checked_witness :
  checked example_heap example_csr /\
  checked unchecked_heap unchecked_csr /\
  exists f, CSRMatrix_new example_heap 3 4 (Some 0%nat) (Some 1%nat) None false
            = Err f.
Proof.
  split; [|split].
  - apply (proj1 (constructed_is_checked example_heap)
             4 4 (Some 0%nat) (Some 1%nat) (Some 2%nat) false example_csr).
    reflexivity.
  - apply (proj1 (proj2 (constructed_is_checked []))
             CSRMatrix_default (Save unchecked_heap unchecked_csr [])
             unchecked_csr unchecked_heap []).
    reflexivity.
  - apply (proj2 (proj2 (constructed_is_checked example_heap))).
    intros (p & i & Hp & _ & _ & _ & _ & _ & _ & Hl).
    injection Hp as <-. discriminate.
Defined.

(** ** CopyTo *)

Lemma NDArray_CopyTo_Ok (h : Heap) (a : IdArray) (c : DLContext) (t : DLTensor) :
  contents h a = Some t ->
  NDArray_CopyTo h a c =
    Ok (Some (length h), h ++ [{| dtype := dtype t; ctx := c; elems := elems t |}]).
Proof.
  intros H. apply deref_Ok in H. unfold NDArray_CopyTo. rewrite H. reflexivity.
Qed.

Lemma contents_last (h : Heap) (t : DLTensor) :
  contents (h ++ [t]) (Some (length h)) = Some t.
Proof. apply (contents_alloc h t). Qed.

(** C6. Let [M] pass [CheckValidity] and let [p] be its [indptr] buffer.
    [CopyTo] to the location of [p] returns [M] itself, with the very same
    array handles, and leaves the store as it is.  [CopyTo] to another
    location [c] returns a matrix with the same shape and flag whose
    [indptr] and [indices], and [data] unless it is null, are buffers that
    did not exist before, located at [c], with the element types and the
    elements of the buffers of [M]; its [data] is null exactly when that of
    [M] is; no buffer of the old store changes, and the result passes
    [CheckValidity]. *)
Theorem CopyTo_same_or_new (h : Heap) (M : CSRMatrix) (c : DLContext) :
  CheckValidity h M = Ok tt ->
  exists p i,
    contents h (indptr M) = Some p /\ contents h (indices M) = Some i /\
    (c = ctx p -> CopyTo h M c = Ok (M, h)) /\
    (c <> ctx p ->
     exists M' h',
       CopyTo h M c = Ok (M', h') /\
       num_rows M' = num_rows M /\ num_cols M' = num_cols M /\
       sorted M' = sorted M /\
       contents h (indptr M') = None /\
       contents h' (indptr M') =
         Some {| dtype := dtype p; ctx := c; elems := elems p |} /\
       contents h (indices M') = None /\
       contents h' (indices M') =
         Some {| dtype := dtype i; ctx := c; elems := elems i |} /\
       IsNullArray (data M') = IsNullArray (data M) /\
       (forall d, contents h (data M) = Some d ->
          contents h (data M') = None /\
          contents h' (data M') =
            Some {| dtype := dtype d; ctx := c; elems := elems d |}) /\
       (forall a t, contents h a = Some t -> contents h' a = Some t) /\
       CheckValidity h' M' = Ok tt).
Proof.
  intros HV. pose proof HV as HC. apply CheckValidity_checked in HC.
  destruct HC as (p & i & Hp & Hi & E1 & E2 & Hd & Hr & Hc & Hl).
  exists p, i. split; [assumption|]. split; [assumption|].
  unfold CopyTo. rewrite (proj2 (deref_Ok _ _ _) Hp). cbn [mbind Result_bind].
  split.
  - intros ->. rewrite (proj2 (DLContext_eqb_eq _ _) eq_refl). reflexivity.
  - intros Hne. rewrite (proj2 (DLContext_eqb_neq _ _) Hne).
    rewrite (NDArray_CopyTo_Ok _ _ _ _ Hp). cbn [mbind Result_bind].
    set (tp := {| dtype := dtype p; ctx := c; elems := elems p |}).
    set (ti := {| dtype := dtype i; ctx := c; elems := elems i |}).
    rewrite (NDArray_CopyTo_Ok (h ++ [tp]) _ c i) by (apply contents_app, Hi).
    cbn [mbind Result_bind]. fold ti.
    destruct (data M) as [ld|] eqn:ED; cbn [IsNullArray mbind Result_bind].
    + destruct Hd as (d & Hd & E3 & E4); [reflexivity|].
      set (td := {| dtype := dtype d; ctx := c; elems := elems d |}).
      rewrite (NDArray_CopyTo_Ok ((h ++ [tp]) ++ [ti]) _ c d)
        by (rewrite <- app_assoc; apply contents_app, Hd).
      cbn [mbind Result_bind]. fold td.
      set (h3 := ((h ++ [tp]) ++ [ti]) ++ [td]).
      set (M' := {| num_rows := num_rows M; num_cols := num_cols M;
                    indptr := Some (length h);
                    indices := Some (length (h ++ [tp]));
                    data := Some (length ((h ++ [tp]) ++ [ti]));
                    sorted := sorted M |}).
      assert (Hp' : contents h3 (indptr M') = Some tp).
      { unfold h3. rewrite <- !app_assoc. simpl.
        rewrite lookup_app_r, Nat.sub_diag; [reflexivity|lia]. }
      assert (Hi' : contents h3 (indices M') = Some ti).
      { unfold h3. apply contents_app, contents_last. }
      assert (Hd' : contents h3 (data M') = Some td).
      { unfold h3. apply contents_last. }
      assert (HV' : CheckValidity h3 M' = Ok tt).
      { apply CheckValidity_checked. exists tp, ti.
        repeat split; try assumption.
        intros _. exists td. repeat split; assumption. }
      unfold CSRMatrix_new. fold M'. rewrite HV'. cbn [mbind Result_bind].
      exists M', h3. repeat split; try assumption.
      * simpl. apply lookup_ge_None. lia.
      * simpl. apply lookup_ge_None. rewrite length_app. simpl. lia.
      * simpl. apply lookup_ge_None. rewrite !length_app. simpl. lia.
      * rewrite Hd in H. injection H as <-. exact Hd'.
      * intros a t Ha. unfold h3. rewrite <- !app_assoc.
        apply contents_app, Ha.
    + set (h3 := (h ++ [tp]) ++ [ti]).
      set (M' := {| num_rows := num_rows M; num_cols := num_cols M;
                    indptr := Some (length h);
                    indices := Some (length (h ++ [tp]));
                    data := None; sorted := sorted M |}).
      assert (Hp' : contents h3 (indptr M') = Some tp).
      { unfold h3. apply contents_app, contents_last. }
      assert (Hi' : contents h3 (indices M') = Some ti).
      { unfold h3. apply contents_last. }
      assert (HV' : CheckValidity h3 M' = Ok tt).
      { apply CheckValidity_checked. exists tp, ti.
        repeat split; try assumption. intros [=]. }
      unfold CSRMatrix_new. fold M'. rewrite HV'. cbn [mbind Result_bind].
      exists M', h3. repeat split; try assumption; try discriminate.
      * simpl. apply lookup_ge_None. lia.
      * simpl. apply lookup_ge_None. rewrite length_app. simpl. lia.
      * intros a t Ha. unfold h3. rewrite <- !app_assoc.
        apply contents_app, Ha.
Qed.

Lemma CopyTo_same_or_new_witness :
  CheckValidity example_heap example_csr = Ok tt /\
  exists p i,
    contents example_heap (indptr example_csr) = Some p /\
    contents example_heap (indices example_csr) = Some i /\
    (gpu0 = ctx p -> CopyTo example_heap example_csr gpu0
                     = Ok (example_csr, example_heap)) /\
    (gpu0 <> ctx p ->
     exists M' h',
       CopyTo example_heap example_csr gpu0 = Ok (M', h') /\
       num_rows M' = num_rows example_csr /\
       num_cols M' = num_cols example_csr /\
       sorted M' = sorted example_csr /\
       contents example_heap (indptr M') = None /\
       contents h' (indptr M') =
         Some {| dtype := dtype p; ctx := gpu0; elems := elems p |} /\
       contents example_heap (indices M') = None /\
       contents h' (indices M') =
         Some {| dtype := dtype i; ctx := gpu0; elems := elems i |} /\
       IsNullArray (data M') = IsNullArray (data example_csr) /\
       (forall d, contents example_heap (data example_csr) = Some d ->
          contents example_heap (data M') = None /\
          contents h' (data M') =
            Some {| dtype := dtype d; ctx := gpu0; elems := elems d |}) /\
       (forall a t, contents example_heap a = Some t -> contents h' a = Some t) /\
       CheckValidity h' M' = Ok tt).
Proof.
  split; [reflexivity|].
  apply (CopyTo_same_or_new example_heap example_csr gpu0). reflexivity.
Defined.

(** ** Lookup by (row, col) *)

(** The matches of a pair are the data ids of the entries of row [r] whose
    column is [c], one per such entry. *)
Lemma elem_of_matches (mat : CSRData) (r c d : Z) :
  d ∈ matches mat r c <->
  exists j, j ∈ row_positions mat r /\ entry mat j = Some (c, d).
Proof.
  unfold matches, row_entries. rewrite list_elem_of_fmap. split.
  - intros ([c' d'] & -> & H). apply list_elem_of_filter in H as [Hc H].
    simpl in Hc. subst c'. apply list_elem_of_omap in H as (j & Hj & He).
    exists j. auto.
  - intros (j & Hj & He). exists (c, d). split; [reflexivity|].
    apply list_elem_of_filter. split; [reflexivity|].
    apply list_elem_of_omap. eauto.
Qed.

Lemma matches_nil (mat : CSRData) (r c : Z) :
  matches mat r c = [] <->
  forall j d, j ∈ row_positions mat r -> entry mat j <> Some (c, d).
Proof.
  split.
  - intros H j d Hj He.
    assert (Hd : d ∈ matches mat r c) by (apply elem_of_matches; eauto).
    rewrite H in Hd. inversion Hd.
  - intros H. destruct (matches mat r c) as [|d l] eqn:E; [reflexivity|].
    assert (Hd : d ∈ matches mat r c) by (rewrite E; left).
    apply elem_of_matches in Hd as (j & Hj & He). destruct (H j d Hj He).
Qed.

Lemma get_data_cases (mat : CSRData) (r c : Z) :
  (matches mat r c = [] /\ get_data mat (r, c) = -1) \/
  get_data mat (r, c) ∈ matches mat r c.
Proof.
  unfold get_data. simpl. destruct (matches mat r c); [left; auto|right; left].
Qed.

(** C3. For every matrix and every batch of query pairs (two sequences
    that broadcast to the pairs [q]; a pair may occur several times),
    [CSRGetData] returns one value per pair.  At a pair (r, c) without a
    matching entry the value is the sentinel -1; at a pair with matching
    entries the value is the data id of an entry of row [r] at column
    [c]. *)
Theorem CSRGetData_one_value_per_pair
    (mat : CSRData) (rows cols : list Z) (q : list (Z * Z)) :
  broadcast rows cols = Some q ->
  exists out,
    CSRGetData mat rows cols = Ok out /\
    length out = length q /\
    forall k r c, q !! k = Some (r, c) ->
      exists x, out !! k = Some x /\
        ((forall j d, j ∈ row_positions mat r -> entry mat j <> Some (c, d)) ->
           x = -1) /\
        ((exists j d, j ∈ row_positions mat r /\ entry mat j = Some (c, d)) ->
           exists j, j ∈ row_positions mat r /\ entry mat j = Some (c, x)).
Proof.
  intros Hq. exists (get_data mat <$> q).
  split; [unfold CSRGetData, CHECK_broadcast; rewrite Hq; reflexivity|].
  split; [apply length_fmap|].
  intros k r c Hk. exists (get_data mat (r, c)).
  split; [rewrite list_lookup_fmap, Hk; reflexivity|].
  destruct (get_data_cases mat r c) as [[Hn ->]|Hin]; split.
  - intros _. reflexivity.
  - intros (j & d & Hj & He).
    destruct (proj1 (matches_nil mat r c) Hn j d Hj He).
  - intros Hno. apply elem_of_matches in Hin as (j & Hj & He).
    destruct (Hno j _ Hj He).
  - intros _. apply elem_of_matches, Hin.
Qed.

Lemma CSRGetData_one_value_per_pair_witness :
  exists out,
    CSRGetData example_data [0; 0; 3; 3; 2] [1; 2; 1; 1; 0] = Ok out /\
    length out = length [(0, 1); (0, 2); (3, 1); (3, 1); (2, 0)] /\
    forall k r c, [(0, 1); (0, 2); (3, 1); (3, 1); (2, 0)] !! k = Some (r, c) ->
      exists x, out !! k = Some x /\
        ((forall j d, j ∈ row_positions example_data r ->
                      entry example_data j <> Some (c, d)) -> x = -1) /\
        ((exists j d, j ∈ row_positions example_data r /\
                      entry example_data j = Some (c, d)) ->
           exists j, j ∈ row_positions example_data r /\
                     entry example_data j = Some (c, x)).
Proof.
  apply (CSRGetData_one_value_per_pair example_data
           [0; 0; 3; 3; 2] [1; 2; 1; 1; 0]
           [(0, 1); (0, 2); (3, 1); (3, 1); (2, 0)]).
  reflexivity.
Defined.

Lemma wrap_representable (nbits v : Z) :
  representable nbits v -> wrap nbits v = v.
Proof.
  unfold representable, wrap. intros H.
  destruct (Z.le_gt_cases nbits 0) as [Hn|Hn].
  - rewrite (Z.pow_neg_r 2 (nbits - 1)) in H by lia. lia.
  - replace (2 ^ nbits) with (2 * 2 ^ (nbits - 1)).
    + rewrite Z.mod_small; lia.
    + rewrite <- Z.pow_succ_r by lia. f_equal. lia.
Qed.

(** One data id per matching entry: the matches of (r, c) go through the
    positions of row [r] and keep the data id wherever the column is
    [c]. *)
Lemma matches_per_entry (mat : CSRData) (r c : Z) :
  matches mat r c = omap (match_at mat c) (row_positions mat r).
Proof.
  unfold matches, row_entries.
  induction (row_positions mat r) as [|j l IH]; [reflexivity|].
  unfold match_at at 1. cbn [omap list_omap mbind option_bind].
  cbn [omap list_omap] in IH.
  destruct (entry mat j) as [[c' d]|]; cbn [mbind option_bind]; [|exact IH].
  rewrite filter_cons. cbn [fst snd].
  destruct (decide (c' = c)); [rewrite fmap_cons; cbn [snd]; f_equal|];
    exact IH.
Qed.

Lemma view_app (h h' : Heap) (m : CSRMatrix) (v : CSRData) :
  view h m = Ok v -> view (h ++ h') m = Ok v.
Proof.
  unfold view. intros H.
  apply bind_Ok in H as (p & Hp & H). apply bind_Ok in H as (i & Hi & H).
  apply bind_Ok in H as (d & Hd & H).
  rewrite (deref_app _ h' _ _ Hp), (deref_app _ h' _ _ Hi).
  cbn [mbind Result_bind].
  destruct (IsNullArray (data m)).
  - rewrite Hd. exact H.
  - apply bind_Ok in Hd as (t & Ht & Hd). rewrite (deref_app _ h' _ _ Ht).
    cbn [mbind Result_bind]. injection Hd as <-. exact H.
Qed.

Lemma hits_single (mat : CSRData) (r c : Z) :
  (fun e : Z * Z * Z => e.2) <$> hits mat [(r, c)] = matches mat r c.
Proof.
  unfold hits. cbn [mbind list_bind]. rewrite app_nil_r, <- list_fmap_compose.
  apply list_fmap_id.
Qed.

(** The third array that [CSRGetDataAndIndices] returns for a query of one
    pair. *)
Lemma CSRGetDataAndIndices_single h mat rows cols v p tr tc r c :
  view h mat = Ok v ->
  contents h (indptr mat) = Some p ->
  contents h rows = Some tr -> elems tr = [r] ->
  contents h cols = Some tc -> elems tc = [c] ->
  exists a0 a1 a2 h',
    CSRGetDataAndIndices h mat rows cols = Ok ([a0; a1; a2], h') /\
    contents h' a2 =
      Some {| dtype := dtype p; ctx := ctx p; elems := matches v r c |}.
Proof.
  intros Hv Hp Hr Er Hc Ec. unfold CSRGetDataAndIndices.
  rewrite Hv. cbn [mbind Result_bind].
  rewrite (proj2 (deref_Ok _ _ _) Hp), (proj2 (deref_Ok _ _ _) Hr),
    (proj2 (deref_Ok _ _ _) Hc). cbn [mbind Result_bind].
  rewrite Er, Ec. cbn [CHECK_broadcast broadcast length Nat.eqb zip zip_with
                        mbind Result_bind].
  unfold alloc. do 4 eexists. split; [reflexivity|].
  rewrite hits_single. apply contents_last.
Qed.

(** C9. Let the arrays of the matrix be there and let [row] and [col] be
    values of its index type.  [CSRGetAllData] returns the third array of
    what [CSRGetDataAndIndices] returns for the one-pair query
    ([row]], [[col]): its elements are the data ids of the entries of row
    [row] at column [col], one per such entry in storage order, and there
    are none when no entry matches. *)
Theorem CSRGetAllData_is_third_component
    (h : Heap) (mat : CSRMatrix) (row col : Z) (v : CSRData) (p : DLTensor) :
  view h mat = Ok v ->
  contents h (indptr mat) = Some p ->
  representable (bits (dtype p)) row ->
  representable (bits (dtype p)) col ->
  exists a h' t,
    CSRGetAllData h mat row col = Ok (a, h') /\
    contents h' a = Some t /\
    elems t = omap (match_at v col) (row_positions v row) /\
    ((forall j d, j ∈ row_positions v row -> entry v j <> Some (col, d)) ->
       elems t = []) /\
    forall hq rows cols tr tc,
      view hq mat = Ok v -> contents hq (indptr mat) = Some p ->
      contents hq rows = Some tr -> elems tr = [row] ->
      contents hq cols = Some tc -> elems tc = [col] ->
      exists a0 a1 a2 hq',
        CSRGetDataAndIndices hq mat rows cols = Ok ([a0; a1; a2], hq') /\
        contents hq' a2 = Some t.
Proof.
  intros Hv Hp Hrow Hcol.
  set (nbits := bits (dtype p)).
  set (tr := {| dtype := {| code := kDLInt; bits := nbits; lanes := 1 |};
                ctx := ctx p; elems := [row] |}).
  set (tc := {| dtype := {| code := kDLInt; bits := nbits; lanes := 1 |};
                ctx := ctx p; elems := [col] |}).
  destruct (CSRGetDataAndIndices_single ((h ++ [tr]) ++ [tc]) mat
              (Some (length h)) (Some (length (h ++ [tr]))) v p tr tc row col)
    as (a0 & a1 & a2 & h' & HG & Ha2).
  { rewrite <- app_assoc. apply view_app, Hv. }
  { rewrite <- app_assoc. apply contents_app, Hp. }
  { apply contents_app, contents_last. }
  { reflexivity. }
  { apply contents_last. }
  { reflexivity. }
  exists a2, h', {| dtype := dtype p; ctx := ctx p; elems := matches v row col |}.
  split; [|split; [exact Ha2|split; [apply matches_per_entry|split]]].
  - unfold CSRGetAllData. rewrite (proj2 (deref_Ok _ _ _) Hp).
    cbn [mbind Result_bind]. unfold VecToIdArray, alloc.
    cbn [fmap list_fmap]. fold nbits.
    rewrite (wrap_representable nbits row Hrow), (wrap_representable nbits col Hcol).
    fold tr tc. rewrite HG. reflexivity.
  - intros Hno. apply matches_nil, Hno.
  - intros hq rows cols tr' tc'. apply CSRGetDataAndIndices_single.
Qed.

Lemma CSRGetAllData_is_third_component_witness :
  exists a h' t,
    CSRGetAllData example_heap example_csr 3 1 = Ok (a, h') /\
    contents h' a = Some t /\
    elems t = omap (match_at example_data 1) (row_positions example_data 3) /\
    ((forall j d, j ∈ row_positions example_data 3 ->
                  entry example_data j <> Some (1, d)) -> elems t = []) /\
    forall hq rows cols tr tc,
      view hq example_csr = Ok example_data ->
      contents hq (indptr example_csr) = Some (array_of cpu [0; 2; 3; 3; 5]) ->
      contents hq rows = Some tr -> elems tr = [3] ->
      contents hq cols = Some tc -> elems tc = [1] ->
      exists a0 a1 a2 hq',
        CSRGetDataAndIndices hq example_csr rows cols = Ok ([a0; a1; a2], hq') /\
        contents hq' a2 = Some t.
Proof.
  apply (CSRGetAllData_is_third_component example_heap example_csr 3 1
           example_data (array_of cpu [0; 2; 3; 3; 5])).
  - reflexivity.
  - reflexivity.
  - unfold representable. simpl. lia.
  - unfold representable. simpl. lia.
Defined.

(** ** The data model *)

Lemma nondecreasing_head (x : Z) (l : list Z) :
  nondecreasing (x :: l) = true -> Forall (fun b => x <= b) l.
Proof.
  revert x. induction l as [|y l IH]; intros x H; [constructor|].
  cbn [nondecreasing] in H. apply andb_true_iff in H as [Hxy H].
  apply Z.leb_le in Hxy. constructor; [assumption|].
  eapply Forall_impl; [apply IH, H|]. simpl. intros b Hb. lia.
Qed.

Lemma nondecreasing_tail (x : Z) (l : list Z) :
  nondecreasing (x :: l) = true -> nondecreasing l = true.
Proof.
  destruct l as [|y l]; [reflexivity|]. cbn [nondecreasing].
  intros H. apply andb_true_iff in H as [_ H]. exact H.
Qed.

Lemma nondecreasing_lookup (l : list Z) (i j : nat) (a b : Z) :
  nondecreasing l = true -> (i <= j)%nat ->
  l !! i = Some a -> l !! j = Some b -> a <= b.
Proof.
  revert i j. induction l as [|x l IH]; intros i j H Hij Hi Hj.
  - discriminate.
  - destruct i as [|i], j as [|j]; simpl in Hi, Hj.
    + assert (a = b) by congruence. lia.
    + injection Hi as <-. apply nondecreasing_head in H.
      rewrite Forall_lookup in H. apply (H j b Hj).
    + lia.
    + apply (IH i j); [eapply nondecreasing_tail, H|lia|assumption..].
Qed.

Lemma valid_csr_unfold (mat : CSRData) :
  valid_csr mat = true ->
  Z.of_nat (length (d_indptr mat)) = d_num_rows mat + 1 /\
  d_indptr mat !! 0%nat = Some 0 /\
  nondecreasing (d_indptr mat) = true /\
  d_indptr mat !! pred (length (d_indptr mat))
    = Some (Z.of_nat (length (d_indices mat))) /\
  (forall l, d_data mat = Some l -> length l = length (d_indices mat)).
Proof.
  unfold valid_csr. rewrite !andb_true_iff.
  intros [[[[H1 H2] H3] H4] H5].
  apply Z.eqb_eq in H1. apply bool_decide_eq_true in H2, H4.
  rewrite head_lookup in H2. rewrite last_lookup in H4.
  repeat split; try assumption.
  intros l E. rewrite E in H5. apply Nat.eqb_eq, H5.
Qed.

(** In a valid matrix row [r] is a segment of the stored entries. *)
Lemma row_range_valid (mat : CSRData) (r : Z) :
  valid_csr mat = true -> 0 <= r < d_num_rows mat ->
  exists lo hi,
    row_range mat r = Some (lo, hi) /\
    0 <= lo <= hi /\ hi <= Z.of_nat (length (d_indices mat)).
Proof.
  intros HV Hr. apply valid_csr_unfold in HV as (HL & H0 & Hmono & Hlast & _).
  destruct (lookup_lt_is_Some_2 (d_indptr mat) (Z.to_nat r)) as [lo Hlo]; [lia|].
  destruct (lookup_lt_is_Some_2 (d_indptr mat) (Z.to_nat (r + 1))) as [hi Hhi];
    [lia|].
  exists lo, hi. split; [|split; [split|]].
  - unfold row_range, lookupZ.
    rewrite (proj2 (Z.ltb_ge r 0)), (proj2 (Z.ltb_ge (r + 1) 0)) by lia.
    rewrite Hlo. cbn [mbind option_bind]. rewrite Hhi. reflexivity.
  - apply (nondecreasing_lookup _ 0 (Z.to_nat r) _ _ Hmono); [lia|assumption..].
  - apply (nondecreasing_lookup _ (Z.to_nat r) (Z.to_nat (r + 1)) _ _ Hmono);
      [lia|assumption..].
  - apply (nondecreasing_lookup _ (Z.to_nat (r + 1))
             (pred (length (d_indptr mat))) _ _ Hmono); [lia|assumption..].
Qed.

Lemma entry_is_Some (mat : CSRData) (j : nat) :
  valid_csr mat = true -> (j < length (d_indices mat))%nat ->
  is_Some (entry mat j).
Proof.
  intros HV Hj. apply valid_csr_unfold in HV as (_ & _ & _ & _ & Hd).
  unfold entry, data_id.
  destruct (lookup_lt_is_Some_2 (d_indices mat) j Hj) as [c ->].
  cbn [mbind option_bind]. destruct (d_data mat) as [l|]; [|eauto].
  destruct (lookup_lt_is_Some_2 l j) as [d ->]; [rewrite (Hd l eq_refl); lia|].
  eauto.
Qed.

Lemma length_omap_total {A B} (f : A -> option B) (l : list A) :
  Forall (fun x => is_Some (f x)) l -> length (omap f l) = length l.
Proof.
  induction 1 as [|x l [y Hy] _ IH]; [reflexivity|].
  cbn [omap list_omap]. fold (omap f l). rewrite Hy. simpl. f_equal. exact IH.
Qed.

(** ** Row-wise sampling *)

Section SamplingFacts.
Context {W G : Type}.
Variable next : G -> nat * G.
Variable select : list W -> nat -> nat.

Lemma pick_index_lt (prob : list W) (pool : list nat) (d : nat) :
  pool <> [] -> (pick_index select prob pool d < length pool)%nat.
Proof.
  intros H. unfold pick_index. apply Nat.mod_upper_bound.
  destruct pool; [congruence|simpl; lia].
Qed.

Lemma pick_without_replacement_length prob k pool g :
  length (pick_without_replacement next select prob k pool g).1
    = Nat.min k (length pool).
Proof.
  revert pool g. induction k as [|k IH]; intros pool g; [reflexivity|].
  destruct pool as [|j pool]; [reflexivity|].
  cbn [pick_without_replacement]. destruct (next g) as [d g1].
  set (i := pick_index select prob (j :: pool) d).
  specialize (IH (delete i (j :: pool)) g1).
  destruct (pick_without_replacement next select prob k
              (delete i (j :: pool)) g1) as [rest g2].
  cbn [fst length] in *. rewrite IH, length_delete.
  - simpl. lia.
  - apply lookup_lt_is_Some_2, pick_index_lt. discriminate.
Qed.

Lemma pick_without_replacement_elem prob k pool g j :
  j ∈ (pick_without_replacement next select prob k pool g).1 -> j ∈ pool.
Proof.
  revert pool g. induction k as [|k IH]; intros pool g; [inversion 1|].
  destruct pool as [|j0 pool]; [inversion 1|].
  cbn [pick_without_replacement]. destruct (next g) as [d g1].
  set (i := pick_index select prob (j0 :: pool) d).
  specialize (IH (delete i (j0 :: pool)) g1).
  destruct (pick_without_replacement next select prob k
              (delete i (j0 :: pool)) g1) as [rest g2].
  cbn [fst] in *. intros H. apply elem_of_cons in H as [->|H].
  - apply list_elem_of_lookup_total_2, pick_index_lt. discriminate.
  - eapply list_elem_of_delete_inv, IH, H.
Qed.

(** C4. In a valid matrix, sampling without replacement gives, for every
    requested row [r], exactly min(num_samples, degree(r)) samples, where
    degree(r) = indptr[r+1] - indptr[r]; every sample of the group has row
    [r]; a row of degree below [num_samples] gives all its entries.  The
    routine is total (no fault), and the result lists the groups in the
    order of the request. *)
Theorem sampling_without_replacement_count
    (mat : CSRData) (rows : list Z) (num_samples : Z) (prob : list W) (g : G) :
  valid_csr mat = true ->
  0 <= num_samples ->
  Forall (fun r => 0 <= r < d_num_rows mat) rows ->
  let grps := (sample_rows next select mat rows num_samples prob false g).1 in
  let coo := (CSRRowWiseSampling next select mat rows num_samples prob false g).1 in
  Forall2 (fun r grp =>
             Z.of_nat (length grp) = Z.min num_samples (degree mat r) /\
             (exists lo hi, lookupZ (d_indptr mat) r = Some lo /\
                            lookupZ (d_indptr mat) (r + 1) = Some hi /\
                            degree mat r = hi - lo) /\
             Forall (fun e => e.1.1 = r) grp /\
             (degree mat r < num_samples ->
                grp = (fun e => (r, e.1, e.2)) <$> row_entries mat r))
          rows grps /\
  coo_row coo = (fun e => e.1.1) <$> concat grps /\
  coo_col coo = (fun e => e.1.2) <$> concat grps /\
  coo_data coo = (fun e => e.2) <$> concat grps.
Proof.
  intros HV Hn Hrows grps coo. split.
  - subst grps. clear coo. revert g.
    induction Hrows as [|r rows Hr Hrows IH]; intros g; [constructor|].
    cbn [sample_rows].
    destruct (pick_row next select mat r num_samples prob false g)
      as [js g1] eqn:Ejs.
    specialize (IH g1).
    destruct (sample_rows next select mat rows num_samples prob false g1)
      as [rest g2].
    cbn [fst] in *. constructor; [|exact IH].
    destruct (row_range_valid mat r HV Hr) as (lo & hi & Erange & Hlo & Hhi).
    assert (Edeg : degree mat r = hi - lo) by (unfold degree; rewrite Erange; reflexivity).
    assert (Epos : row_positions mat r
                   = seq (Z.to_nat lo) (Z.to_nat hi - Z.to_nat lo))
      by (unfold row_positions; rewrite Erange; reflexivity).
    assert (Hpool : forall j, j ∈ row_positions mat r -> is_Some (entry mat j)).
    { intros j Hj. rewrite Epos in Hj. apply elem_of_seq in Hj.
      apply entry_is_Some; [assumption|lia]. }
    assert (Hjs : length js = Z.to_nat (Z.min num_samples (degree mat r)) /\
                  (forall j, j ∈ js -> j ∈ row_positions mat r) /\
                  (degree mat r < num_samples -> js = row_positions mat r)).
    { unfold pick_row in Ejs. cbn [negb] in Ejs.
      destruct (Z.ltb_spec (degree mat r) num_samples) as [Hlt|Hge].
      - injection Ejs as <- <-. rewrite Epos, length_seq. repeat split; auto. lia.
      - pose proof (pick_without_replacement_length prob
                      (Z.to_nat num_samples) (row_positions mat r) g) as HL.
        pose proof (fun j => pick_without_replacement_elem prob
                      (Z.to_nat num_samples) (row_positions mat r) g j) as HE.
        rewrite Ejs in HL, HE. cbn [fst] in HL, HE.
        repeat split; [|exact HE|lia].
        rewrite HL, Epos, length_seq. lia. }
    destruct Hjs as (HL & HE & Hall).
    split; [|split; [|split]].
    + rewrite length_fmap, length_omap_total.
      * rewrite HL. lia.
      * apply Forall_forall. intros j Hj. apply Hpool, HE, Hj.
    + unfold row_range in Erange.
      destruct (lookupZ (d_indptr mat) r) as [lo'|]; [|discriminate].
      cbn [mbind option_bind] in Erange.
      destruct (lookupZ (d_indptr mat) (r + 1)) as [hi'|]; [|discriminate].
      injection Erange as -> ->. eauto.
    + apply Forall_fmap, Forall_true. reflexivity.
    + intros Hlt. rewrite (Hall Hlt). reflexivity.
  - unfold coo, CSRRowWiseSampling. subst grps.
    destruct (sample_rows next select mat rows num_samples prob false g)
      as [grps g']. auto.
Qed.
End SamplingFacts.

Lemma sampling_without_replacement_count_witness :
  let next := fun g : nat => (g, S g) in
  let select := fun (_ : list unit) (d : nat) => d in
  let grps := (sample_rows next select example_data [1; 3; 0] 1 [] false 5%nat).1 in
  let coo :=
    (CSRRowWiseSampling next select example_data [1; 3; 0] 1 [] false 5%nat).1 in
  Forall2 (fun r grp =>
             Z.of_nat (length grp) = Z.min 1 (degree example_data r) /\
             (exists lo hi, lookupZ (d_indptr example_data) r = Some lo /\
                            lookupZ (d_indptr example_data) (r + 1) = Some hi /\
                            degree example_data r = hi - lo) /\
             Forall (fun e => e.1.1 = r) grp /\
             (degree example_data r < 1 ->
                grp = (fun e => (r, e.1, e.2)) <$> row_entries example_data r))
          [1; 3; 0] grps /\
  coo_row coo = (fun e => e.1.1) <$> concat grps /\
  coo_col coo = (fun e => e.1.2) <$> concat grps /\
  coo_data coo = (fun e => e.2) <$> concat grps.
Proof.
  intros next select.
  apply (sampling_without_replacement_count next select example_data
           [1; 3; 0] 1 [] 5%nat).
  - reflexivity.
  - lia.
  - repeat constructor; simpl; lia.
Defined.

(** ** Sorting *)

Section Sorting.
Context {A : Type}.
Variable key : A -> Z.

Lemma insert_by_length (x : A) (l : list A) :
  length (insert_by key x l) = S (length l).
Proof.
  induction l as [|y l IH]; [reflexivity|].
  simpl. destruct (key x <=? key y); simpl; congruence.
Qed.

Lemma isort_length (l : list A) : length (isort key l) = length l.
Proof.
  induction l as [|x l IH]; [reflexivity|].
  simpl. rewrite insert_by_length. congruence.
Qed.

Lemma insert_by_sorted (x : A) (l : list A) :
  nondecreasing (key <$> l) = true ->
  nondecreasing (key <$> insert_by key x l) = true.
Proof.
  induction l as [|y l IH]; intros H; [reflexivity|].
  simpl. destruct (Z.leb_spec (key x) (key y)) as [Hxy|Hxy].
  - rewrite !fmap_cons. cbn [nondecreasing].
    rewrite (proj2 (Z.leb_le _ _) Hxy). exact H.
  - rewrite fmap_cons. specialize (IH (nondecreasing_tail _ _ H)).
    rewrite fmap_cons in H.
    destruct l as [|z l]; simpl in *.
    + rewrite (proj2 (Z.leb_le (key y) (key x))) by lia. reflexivity.
    + destruct (Z.leb_spec (key x) (key z)) as [Hxz|Hxz]; simpl in *.
      * rewrite (proj2 (Z.leb_le (key y) (key x))) by lia. exact IH.
      * apply andb_true_iff in H as [Hyz _]. rewrite Hyz. exact IH.
Qed.

Lemma isort_sorted (l : list A) : nondecreasing (key <$> isort key l) = true.
Proof.
  induction l as [|x l IH]; [reflexivity|]. simpl. apply insert_by_sorted, IH.
Qed.

(** Sorting what is sorted changes nothing. *)
Lemma isort_fixed (l : list A) :
  nondecreasing (key <$> l) = true -> isort key l = l.
Proof.
  induction l as [|x l IH]; intros H; [reflexivity|].
  simpl. rewrite IH by (eapply nondecreasing_tail, H).
  destruct l as [|y l]; [reflexivity|].
  simpl in *. apply andb_true_iff in H as [-> _]. reflexivity.
Qed.

Lemma sort_segment_length (lo hi : nat) (l : list A) :
  length (sort_segment key lo hi l) = length l.
Proof.
  unfold sort_segment. destruct (Nat.leb_spec lo hi); [|reflexivity].
  rewrite !length_app, isort_length, !length_take, !length_drop. lia.
Qed.

Lemma sort_segment_take (lo hi : nat) (l : list A) :
  take lo (sort_segment key lo hi l) = take lo l.
Proof.
  unfold sort_segment. destruct (Nat.leb_spec lo hi) as [Hle|]; [|reflexivity].
  rewrite take_app, take_take, Nat.min_id, length_take.
  destruct (Nat.le_gt_cases lo (length l)) as [Hl|Hl].
  - replace (lo - lo `min` length l)%nat with 0%nat by lia.
    rewrite take_0, app_nil_r. reflexivity.
  - rewrite (drop_ge l lo), (drop_ge l hi) by lia.
    rewrite take_nil. simpl. rewrite take_nil, app_nil_r. reflexivity.
Qed.

(** After sorting it the segment is the sorted segment. *)
Lemma sort_segment_segment (lo hi : nat) (l : list A) :
  (lo <= hi)%nat ->
  take (hi - lo) (drop lo (sort_segment key lo hi l))
    = isort key (take (hi - lo) (drop lo l)).
Proof.
  intros Hle. unfold sort_segment. rewrite (proj2 (Nat.leb_le _ _) Hle).
  destruct (Nat.le_gt_cases lo (length l)) as [Hl|Hl].
  - rewrite drop_app_length' by (rewrite length_take; lia).
    destruct (Nat.le_gt_cases hi (length l)) as [Hh|Hh].
    + rewrite take_app_length'; [reflexivity|].
      rewrite isort_length, length_take, length_drop. lia.
    + rewrite (drop_ge l hi), app_nil_r by lia.
      apply take_ge. rewrite isort_length, length_take. lia.
  - rewrite (drop_ge l lo), (drop_ge l hi) by lia.
    rewrite take_nil. simpl. rewrite app_nil_r, drop_ge by (rewrite length_take; lia).
    apply take_nil.
Qed.

Lemma sort_segment_fixed (lo hi : nat) (l : list A) :
  nondecreasing (key <$> take (hi - lo) (drop lo l)) = true ->
  sort_segment key lo hi l = l.
Proof.
  intros H. unfold sort_segment.
  destruct (Nat.leb_spec lo hi) as [Hle|]; [|reflexivity].
  rewrite (isort_fixed _ H).
  replace (drop hi l) with (drop (hi - lo) (drop lo l))
    by (rewrite drop_drop; f_equal; lia).
  rewrite take_drop. apply take_drop.
Qed.

Lemma sort_rows_length (ip : list Z) (l : list A) :
  length (sort_rows key ip l) = length l.
Proof.
  revert l. induction ip as [|lo ip IH]; intros l; [reflexivity|].
  destruct ip as [|hi ip]; [reflexivity|].
  change (length (sort_rows key (hi :: ip)
            (sort_segment key (Z.to_nat lo) (Z.to_nat hi) l)) = length l).
  rewrite IH. apply sort_segment_length.
Qed.

(** Sorting the rows from [lo] on leaves the positions before [lo] alone. *)
Lemma sort_rows_take (lo : Z) (ip : list Z) (l : list A) :
  nondecreasing (lo :: ip) = true ->
  take (Z.to_nat lo) (sort_rows key (lo :: ip) l) = take (Z.to_nat lo) l.
Proof.
  revert lo l. induction ip as [|hi ip IH]; intros lo l H; [reflexivity|].
  change (take (Z.to_nat lo) (sort_rows key (hi :: ip)
            (sort_segment key (Z.to_nat lo) (Z.to_nat hi) l))
          = take (Z.to_nat lo) l).
  pose proof H as H'. cbn [nondecreasing] in H'.
  apply andb_true_iff in H' as [Hle Htl]. apply Z.leb_le in Hle.
  rewrite <- (Nat.min_l (Z.to_nat lo) (Z.to_nat hi)) at 1 by lia.
  rewrite <- take_take, (IH hi _ Htl), take_take, Nat.min_l by lia.
  apply sort_segment_take.
Qed.

Lemma sort_rows_fixed (ip : list Z) (l : list A) :
  rows_sorted key ip l = true -> sort_rows key ip l = l.
Proof.
  induction ip as [|lo ip IH]; intros H; [reflexivity|].
  destruct ip as [|hi ip]; [reflexivity|].
  cbn [rows_sorted] in H. apply andb_true_iff in H as [Hseg H].
  change (sort_rows key (hi :: ip)
            (sort_segment key (Z.to_nat lo) (Z.to_nat hi) l) = l).
  rewrite (sort_segment_fixed _ _ _ Hseg). apply IH, H.
Qed.

Lemma sort_rows_sorted (ip : list Z) (l : list A) :
  nondecreasing ip = true -> rows_sorted key ip (sort_rows key ip l) = true.
Proof.
  revert l. induction ip as [|lo ip IH]; intros l H; [reflexivity|].
  destruct ip as [|hi ip]; [reflexivity|].
  pose proof H as H'. cbn [nondecreasing] in H'.
  apply andb_true_iff in H' as [Hle Htl]. apply Z.leb_le in Hle.
  change (sort_rows key (lo :: hi :: ip) l)
    with (sort_rows key (hi :: ip)
            (sort_segment key (Z.to_nat lo) (Z.to_nat hi) l)).
  set (l1 := sort_segment key (Z.to_nat lo) (Z.to_nat hi) l).
  cbn [rows_sorted]. apply andb_true_iff. split; [|apply IH, Htl].
  rewrite take_drop_commute.
  replace (Z.to_nat lo + (Z.to_nat hi - Z.to_nat lo))%nat with (Z.to_nat hi) by lia.
  rewrite (sort_rows_take hi ip l1 Htl).
  replace (Z.to_nat hi) with (Z.to_nat lo + (Z.to_nat hi - Z.to_nat lo))%nat
    at 1 by lia.
  rewrite <- take_drop_commute. unfold l1.
  rewrite sort_segment_segment by lia. apply isort_sorted.
Qed.

(** Sorting the rows twice is sorting them once. *)
Lemma sort_rows_idempotent (ip : list Z) (l : list A) :
  nondecreasing ip = true ->
  sort_rows key ip (sort_rows key ip l) = sort_rows key ip l.
Proof. intros H. apply sort_rows_fixed, sort_rows_sorted, H. Qed.
End Sorting.

Lemma zip_drop_both_nil {A B} (n : nat) (l : list A) (k : list B) :
  n = length (zip l k) -> zip (drop n l) (drop n k) = [].
Proof.
  intros ->. rewrite length_zip_with.
  destruct (Nat.le_ge_cases (length l) (length k)) as [H|H].
  - rewrite Nat.min_l by lia. rewrite (drop_ge l) by lia. reflexivity.
  - rewrite Nat.min_r by lia. rewrite (drop_ge k) by lia.
    apply zip_with_nil_r.
Qed.

(** Sorting the arrays of a matrix twice is sorting them once. *)
Lemma sort_arrays_idempotent (ip ix : list Z) (dx : option (list Z)) :
  nondecreasing ip = true ->
  sort_arrays ip (sort_arrays ip ix dx).1 (sort_arrays ip ix dx).2
    = sort_arrays ip ix dx.
Proof.
  intros H. destruct dx as [dx|]; cbn [sort_arrays fst snd].
  - set (es := sort_rows fst ip (zip ix dx)).
    assert (Hn : length es = length (zip ix dx)) by apply sort_rows_length.
    assert (Ez : zip (es.*1 ++ drop (length es) ix) (es.*2 ++ drop (length es) dx)
                 = es).
    { rewrite zip_with_app by (rewrite !length_fmap; reflexivity).
      rewrite zip_fst_snd, (zip_drop_both_nil _ _ _ Hn). apply app_nil_r. }
    assert (E2 : sort_rows fst ip es = es)
      by (unfold es; apply sort_rows_idempotent, H).
    rewrite Ez, E2.
    rewrite !drop_app_length' by (rewrite length_fmap; reflexivity).
    reflexivity.
  - rewrite (sort_rows_idempotent id ip _ H). reflexivity.
Qed.

Lemma store_fresh (h : Heap) (t : DLTensor) (r : Heap) (l : list Z) :
  store (h ++ t :: r) (Some (length h)) l
    = h ++ {| dtype := dtype t; ctx := ctx t; elems := l |} :: r.
Proof.
  unfold store. rewrite <- (Nat.add_0_r (length h)) at 1.
  rewrite alter_app_r. reflexivity.
Qed.

Lemma contents_middle (h : Heap) (t : DLTensor) (r : Heap) :
  contents (h ++ t :: r) (Some (length h)) = Some t.
Proof. simpl. rewrite lookup_app_r, Nat.sub_diag; [reflexivity|lia]. Qed.

Lemma contents_middle2 (h : Heap) (t t' : DLTensor) (r : Heap) :
  contents (h ++ t :: t' :: r) (Some (S (length h))) = Some t'.
Proof.
  simpl. rewrite lookup_app_r by lia.
  replace (S (length h) - length h)%nat with 1%nat by lia. reflexivity.
Qed.

Lemma view_nodata h m p i :
  contents h (indptr m) = Some p -> contents h (indices m) = Some i ->
  data m = None ->
  view h m = Ok {| d_num_rows := num_rows m; d_num_cols := num_cols m;
                   d_indptr := elems p; d_indices := elems i;
                   d_data := None; d_sorted := sorted m |}.
Proof.
  intros Hp Hi Hd. unfold view.
  rewrite (proj2 (deref_Ok _ _ _) Hp), (proj2 (deref_Ok _ _ _) Hi), Hd.
  reflexivity.
Qed.

Lemma view_data h m p i d :
  contents h (indptr m) = Some p -> contents h (indices m) = Some i ->
  IsNullArray (data m) = false -> contents h (data m) = Some d ->
  view h m = Ok {| d_num_rows := num_rows m; d_num_cols := num_cols m;
                   d_indptr := elems p; d_indices := elems i;
                   d_data := Some (elems d); d_sorted := sorted m |}.
Proof.
  intros Hp Hi Hn Hd. unfold view.
  rewrite (proj2 (deref_Ok _ _ _) Hp), (proj2 (deref_Ok _ _ _) Hi), Hn.
  cbn [mbind Result_bind]. rewrite (proj2 (deref_Ok _ _ _) Hd). reflexivity.
Qed.

(** What [CSRSort] does to a matrix whose flag is not set: the result
    shares [indptr] with the argument and has buffers of its own for
    [indices] and [data], which hold the arrays of the argument with every
    row sorted; the buffers of the argument are not written. *)
Lemma CSRSort_unsorted (mark : bool) (h : Heap) (csr : CSRMatrix) (v : CSRData) :
  sorted csr = false ->
  CheckValidity h csr = Ok tt ->
  view h csr = Ok v ->
  exists m1 h1,
    CSRSort mark h csr = Ok (m1, h1) /\
    sorted m1 = mark /\
    CheckValidity h1 m1 = Ok tt /\
    view h1 m1 = Ok (sorted_data mark v) /\
    view h1 csr = Ok v.
Proof.
  intros Hs HV Hv. pose proof HV as HC. apply CheckValidity_checked in HC.
  destruct HC as (p & i & Hp & Hi & E1 & E2 & Hd & Hr & Hc & Hl).
  unfold CSRSort. rewrite Hs. unfold NDArray_Clone.
  rewrite (proj2 (deref_Ok _ _ _) Hi). cbn [mbind Result_bind alloc].
  unfold CSRHasData.
  destruct (data csr) as [ld|] eqn:ED; cbn [IsNullArray negb].
  - destruct Hd as (d & Hd & E3 & E4); [reflexivity|].
    rewrite (deref_app _ [i] _ _ (proj2 (deref_Ok _ _ _) Hd)).
    cbn [mbind Result_bind alloc]. rewrite <- app_assoc. cbn [app].
    rewrite length_app. cbn [length]. rewrite Nat.add_1_r.
    set (ret := {| num_rows := num_rows csr; num_cols := num_cols csr;
                   indptr := indptr csr; indices := Some (length h);
                   data := Some (S (length h)); sorted := false |}).
    assert (Hv' : v = {| d_num_rows := num_rows csr; d_num_cols := num_cols csr;
                         d_indptr := elems p; d_indices := elems i;
                         d_data := Some (elems d); d_sorted := false |}).
    { rewrite (view_data h csr p i d) in Hv; try assumption.
      - rewrite Hs in Hv. congruence.
      - rewrite ED. reflexivity.
      - rewrite ED. assumption. }
    assert (HVr : CheckValidity (h ++ [i; d]) ret = Ok tt).
    { apply CheckValidity_checked. exists p, i. repeat split; try assumption.
      - apply contents_app, Hp.
      - apply contents_middle.
      - intros _. exists d. repeat split; try assumption.
        apply contents_middle2. }
    unfold CSRMatrix_new. fold ret. rewrite HVr. cbn [mbind Result_bind].
    unfold CSRSort_, CSRHasData. cbn [indptr indices data ret IsNullArray negb].
    rewrite (deref_app _ [i; d] _ _ (proj2 (deref_Ok _ _ _) Hp)).
    rewrite (proj2 (deref_Ok _ _ _) (contents_middle h i [d])).
    rewrite (proj2 (deref_Ok _ _ _) (contents_middle2 h i d [])).
    cbn [mbind Result_bind].
    destruct (sort_arrays (elems p) (elems i) (Some (elems d))) as [ix dx] eqn:ES.
    assert (exists l, dx = Some l) as [l ->]
      by (cbn [sort_arrays] in ES; injection ES as <- <-; eauto).
    rewrite store_fresh.
    change (h ++ ?t :: [d]) with (h ++ [t] ++ [d]).
    rewrite app_assoc.
    replace (S (length h)) with (length (h ++ [{| dtype := dtype i; ctx := ctx i; elems := ix |}]))
      by (rewrite length_app; simpl; lia).
    rewrite store_fresh. rewrite <- app_assoc. cbn [app].
    set (ti := {| dtype := dtype i; ctx := ctx i; elems := ix |}).
    set (td := {| dtype := dtype d; ctx := ctx d; elems := l |}).
    set (m1 := if mark then set_sorted true ret else ret).
    assert (Em1 : m1 = {| num_rows := num_rows csr; num_cols := num_cols csr;
                          indptr := indptr csr; indices := Some (length h);
                          data := Some (S (length h)); sorted := mark |})
      by (unfold m1; destruct mark; reflexivity).
    exists m1, (h ++ [ti; td]). split; [reflexivity|].
    split; [rewrite Em1; reflexivity|].
    assert (Hp1 : contents (h ++ [ti; td]) (indptr m1) = Some p)
      by (rewrite Em1; apply contents_app, Hp).
    assert (Hi1 : contents (h ++ [ti; td]) (indices m1) = Some ti)
      by (rewrite Em1; apply contents_middle).
    assert (Hd1 : contents (h ++ [ti; td]) (data m1) = Some td)
      by (rewrite Em1; apply contents_middle2).
    split; [|split].
    + apply CheckValidity_checked. exists p, ti.
      repeat split; try assumption; try (rewrite Em1; cbn; assumption).
      intros _. exists td. repeat split; assumption.
    + assert (Hn1 : IsNullArray (data m1) = false) by (rewrite Em1; reflexivity).
      rewrite (view_data _ m1 p ti td Hp1 Hi1 Hn1 Hd1).
      rewrite Hv'. unfold sorted_data. cbn [d_indptr d_indices d_data].
      rewrite ES, Em1. reflexivity.
    + apply view_app, Hv.
  - cbn [mbind Result_bind].
    set (ret := {| num_rows := num_rows csr; num_cols := num_cols csr;
                   indptr := indptr csr; indices := Some (length h);
                   data := None; sorted := false |}).
    assert (Hv' : v = {| d_num_rows := num_rows csr; d_num_cols := num_cols csr;
                         d_indptr := elems p; d_indices := elems i;
                         d_data := None; d_sorted := false |}).
    { rewrite (view_nodata h csr p i) in Hv; try assumption.
      rewrite Hs in Hv. congruence. }
    assert (HVr : CheckValidity (h ++ [i]) ret = Ok tt).
    { apply CheckValidity_checked. exists p, i.
      repeat split; try assumption; try discriminate.
      - apply contents_app, Hp.
      - apply contents_middle. }
    unfold CSRMatrix_new. fold ret. rewrite HVr. cbn [mbind Result_bind].
    unfold CSRSort_, CSRHasData. cbn [indptr indices data ret IsNullArray negb].
    rewrite (deref_app _ [i] _ _ (proj2 (deref_Ok _ _ _) Hp)).
    rewrite (proj2 (deref_Ok _ _ _) (contents_middle h i [])).
    cbn [mbind Result_bind sort_arrays].
    rewrite store_fresh.
    set (ti := {| dtype := dtype i; ctx := ctx i;
                  elems := sort_rows id (elems p) (elems i) |}).
    set (m1 := if mark then set_sorted true ret else ret).
    assert (Em1 : m1 = {| num_rows := num_rows csr; num_cols := num_cols csr;
                          indptr := indptr csr; indices := Some (length h);
                          data := None; sorted := mark |})
      by (unfold m1, ret; destruct mark; reflexivity).
    exists m1, (h ++ [ti]). split; [reflexivity|].
    split; [rewrite Em1; reflexivity|].
    assert (Hp1 : contents (h ++ [ti]) (indptr m1) = Some p)
      by (rewrite Em1; apply contents_app, Hp).
    assert (Hi1 : contents (h ++ [ti]) (indices m1) = Some ti)
      by (rewrite Em1; apply contents_middle).
    split; [|split].
    + apply CheckValidity_checked. exists p, ti.
      repeat split; try assumption; try (rewrite Em1; cbn; assumption);
        try (rewrite Em1; discriminate).
    + assert (Hn1 : data m1 = None) by (rewrite Em1; reflexivity).
      rewrite (view_nodata _ m1 p ti Hp1 Hi1 Hn1).
      rewrite Hv', Em1. reflexivity.
    + apply view_app, Hv.
Qed.

Lemma sorted_data_idempotent (mark : bool) (v : CSRData) :
  nondecreasing (d_indptr v) = true ->
  sorted_data mark (sorted_data mark v) = sorted_data mark v.
Proof.
  intros H. unfold sorted_data.
  pose proof (sort_arrays_idempotent (d_indptr v) (d_indices v) (d_data v) H) as E.
  destruct (sort_arrays (d_indptr v) (d_indices v) (d_data v)) as [ix dx].
  cbn [fst snd d_indptr d_indices d_data d_num_rows d_num_cols] in *.
  rewrite E. reflexivity.
Qed.

(** C5. [CSRSort] of a matrix whose sorted flag is set returns the matrix
    itself, with the same array handles, and the store as it is: nothing is
    cloned.  For a matrix that passes [CheckValidity], [CSRSort] returns,
    and sorting its result again returns a matrix that shows the same
    shape, arrays and flag as the result of sorting once; the arrays of the
    argument are not changed.  This holds when the in-place sort sets the
    flag, and when it does not and [indptr] is non-decreasing. *)
Theorem CSRSort_idempotent (mark : bool) (h : Heap) (csr : CSRMatrix) :
  (sorted csr = true -> CSRSort mark h csr = Ok (csr, h)) /\
  (forall v,
     CheckValidity h csr = Ok tt ->
     view h csr = Ok v ->
     mark = true \/ nondecreasing (d_indptr v) = true ->
     exists m1 h1 v1,
       CSRSort mark h csr = Ok (m1, h1) /\
       view h1 m1 = Ok v1 /\
       view h1 csr = Ok v /\
       exists m2 h2,
         CSRSort mark h1 m1 = Ok (m2, h2) /\
         view h2 m2 = Ok v1).
Proof.
  split.
  - intros Hs. unfold CSRSort. rewrite Hs. reflexivity.
  - intros v HV Hv Hmono. destruct (sorted csr) eqn:Hs.
    + assert (E : CSRSort mark h csr = Ok (csr, h))
        by (unfold CSRSort; rewrite Hs; reflexivity).
      exists csr, h, v. repeat split; try assumption. exists csr, h. auto.
    + destruct (CSRSort_unsorted mark h csr v Hs HV Hv)
        as (m1 & h1 & E1 & Hm1 & HV1 & Hv1 & Hkeep).
      exists m1, h1, (sorted_data mark v). repeat split; try assumption.
      destruct mark.
      * exists m1, h1. split; [|assumption].
        unfold CSRSort. rewrite Hm1. reflexivity.
      * destruct (CSRSort_unsorted false h1 m1 _ Hm1 HV1 Hv1)
          as (m2 & h2 & E2 & _ & _ & Hv2 & _).
        exists m2, h2. split; [assumption|].
        destruct Hmono as [Hmark|Hmono]; [discriminate Hmark|].
        rewrite Hv2. f_equal. apply sorted_data_idempotent, Hmono.
Qed.

Lemma CSRSort_idempotent_witness :
  CSRSort false example_heap (set_sorted true example_csr)
    = Ok (set_sorted true example_csr, example_heap) /\
  exists m1 h1 v1,
    CSRSort false example_heap example_csr = Ok (m1, h1) /\
    view h1 m1 = Ok v1 /\
    view h1 example_csr = Ok example_data /\
    exists m2 h2,
      CSRSort false h1 m1 = Ok (m2, h2) /\
      view h2 m2 = Ok v1.
Proof.
  split.
  - apply (proj1 (CSRSort_idempotent false example_heap
                    (set_sorted true example_csr))).
    reflexivity.
  - apply (proj2 (CSRSort_idempotent false example_heap example_csr)
             example_data); [reflexivity|reflexivity|right; reflexivity].
Defined.

(** ** Transpose *)

Lemma bind_concat {A B} (f : A -> list B) (l : list A) :
  l ≫= f = concat (f <$> l).
Proof.
  induction l as [|x l IH]; [reflexivity|].
  rewrite bind_cons, fmap_cons. simpl. congruence.
Qed.

Lemma bind_ext_elem {A B} (f g : A -> list B) (l : list A) :
  (forall x, x ∈ l -> f x = g x) -> l ≫= f = l ≫= g.
Proof.
  induction l as [|x l IH]; intros H; [reflexivity|].
  rewrite !bind_cons, (H x) by left. f_equal. apply IH.
  intros y Hy. apply H. right. exact Hy.
Qed.

Lemma prefix_sums_lookup {A} (bs : list (list A)) (acc : Z) (k : nat) :
  (k <= length bs)%nat ->
  prefix_sums acc ((fun b => Z.of_nat (length b)) <$> bs) !! k
    = Some (acc + Z.of_nat (length (concat (take k bs)))).
Proof.
  revert acc k. induction bs as [|b bs IH]; intros acc k Hk.
  - destruct k; [|simpl in Hk; lia]. simpl. f_equal. lia.
  - destruct k as [|k].
    + simpl. f_equal. lia.
    + rewrite fmap_cons. cbn [prefix_sums lookup list_lookup].
      change (prefix_sums (acc + Z.of_nat (length b))
                ((fun b => Z.of_nat (length b)) <$> bs) !! k
              = Some (acc + Z.of_nat (length (concat (take (S k) (b :: bs)))))).
      rewrite IH by (simpl in Hk; lia).
      cbn [take concat]. rewrite length_app. f_equal. lia.
Qed.

Lemma concat_segment {A} (bs : list (list A)) (k : nat) (b : list A) :
  bs !! k = Some b ->
  take (length b) (drop (length (concat (take k bs))) (concat bs)) = b.
Proof.
  intros H. rewrite <- (take_drop_middle bs k b H) at 2.
  rewrite concat_app. cbn [concat].
  rewrite drop_app_length. apply take_app_length.
Qed.

(** Reading the entries at consecutive positions of parallel arrays. *)
Lemma omap_entry_seq (mat : CSRData) (L : list (Z * Z * Z)) (lo k : nat) :
  d_indices mat = (fun e => e.1.2) <$> L ->
  d_data mat = Some ((fun e => e.2) <$> L) ->
  omap (entry mat) (seq lo k) = strip <$> take k (drop lo L).
Proof.
  intros Hi Hd. revert lo. induction k as [|k IH]; intros lo.
  - rewrite take_0. reflexivity.
  - cbn [seq omap list_omap]. fold (omap (entry mat) (seq (S lo) k)).
    rewrite IH. unfold entry, data_id. rewrite Hi, Hd, !list_lookup_fmap.
    destruct (L !! lo) as [x|] eqn:E; cbn [fmap option_fmap option_map mbind option_bind].
    + rewrite (drop_S L x lo E). reflexivity.
    + apply lookup_ge_None in E.
      rewrite (drop_ge L lo), (drop_ge L (S lo)) by lia.
      rewrite !take_nil. reflexivity.
Qed.

(** Row [c] of the transposed matrix is bucket [c]. *)
Lemma row_entries_CSRTranspose (csr : CSRData) (c : Z) :
  0 <= c < d_num_cols csr ->
  row_entries (CSRTranspose csr) c
    = strip <$> bucket (swap_entry <$> all_entries csr) c.
Proof.
  intros Hc. set (es := swap_entry <$> all_entries csr).
  set (bs := bucket es <$> seqZ 0 (d_num_cols csr)).
  assert (Hb : bs !! Z.to_nat c = Some (bucket es c)).
  { unfold bs. rewrite list_lookup_fmap, lookup_seqZ_lt by lia.
    simpl. do 2 f_equal. lia. }
  pose proof (lookup_lt_Some _ _ _ Hb) as Hlt.
  unfold row_entries, row_positions, row_range, lookupZ.
  rewrite (proj2 (Z.ltb_ge c 0)), (proj2 (Z.ltb_ge (c + 1) 0)) by lia.
  cbn [CSRTranspose d_indptr]. fold es. fold bs.
  rewrite (prefix_sums_lookup bs 0 (Z.to_nat c)) by lia.
  cbn [mbind option_bind].
  replace (Z.to_nat (c + 1)) with (S (Z.to_nat c)) by lia.
  rewrite (prefix_sums_lookup bs 0 (S (Z.to_nat c))) by lia.
  cbn [mbind option_bind].
  rewrite (take_S_r bs _ _ Hb), concat_app, length_app. cbn [concat].
  rewrite app_nil_r.
  set (lo := length (concat (take (Z.to_nat c) bs))).
  replace (Z.to_nat (0 + Z.of_nat lo)) with lo by lia.
  replace (Z.to_nat (0 + Z.of_nat (lo + length (bucket es c))) - lo)%nat
    with (length (bucket es c)) by lia.
  rewrite (omap_entry_seq _ (concat bs)) by reflexivity.
  unfold lo. rewrite (concat_segment bs _ _ Hb). reflexivity.
Qed.

Lemma tag_strip (r : Z) (e : Z * Z * Z) : e.1.1 = r -> tag r (strip e) = e.
Proof. destruct e as [[r' c] d]. simpl. intros ->. reflexivity. Qed.

Lemma strip_tag (r : Z) (e : Z * Z) : strip (tag r e) = e.
Proof. destruct e. reflexivity. Qed.

Lemma swap_entry_involutive (e : Z * Z * Z) : swap_entry (swap_entry e) = e.
Proof. destruct e as [[r c] d]. reflexivity. Qed.

Lemma tag_strip_bucket (es : list (Z * Z * Z)) (r : Z) :
  tag r <$> (strip <$> bucket es r) = bucket es r.
Proof.
  rewrite <- list_fmap_compose. erewrite Forall_fmap_ext_1; [apply list_fmap_id|].
  apply Forall_forall. intros e He. apply list_elem_of_filter in He as [He _].
  simpl. apply tag_strip, He.
Qed.

(** The entries of the transposed matrix, in storage order: bucket after
    bucket. *)
Lemma all_entries_CSRTranspose (csr : CSRData) :
  all_entries (CSRTranspose csr)
    = concat (bucket (swap_entry <$> all_entries csr)
                <$> seqZ 0 (d_num_cols csr)).
Proof.
  rewrite <- bind_concat. unfold all_entries at 1.
  cbn [CSRTranspose d_num_rows]. apply bind_ext_elem.
  intros c Hc. apply elem_of_seqZ in Hc.
  rewrite row_entries_CSRTranspose by lia. apply tag_strip_bucket.
Qed.

Lemma filter_disjoint_app {A} (P Q R : A -> Prop)
    `{forall x, Decision (P x)} `{forall x, Decision (Q x)}
    `{forall x, Decision (R x)} (l : list A) :
  (forall x, R x <-> P x \/ Q x) -> (forall x, P x -> Q x -> False) ->
  filter P l ++ filter Q l ≡ₚ filter R l.
Proof.
  intros HR Hdis. induction l as [|x l IH]; [reflexivity|].
  rewrite !filter_cons.
  destruct (decide (P x)) as [HP|HP], (decide (Q x)) as [HQ|HQ],
    (decide (R x)) as [Hr|Hr];
    try (exfalso; first [apply (Hdis x HP HQ) | apply Hr, HR; tauto
                        | apply HR in Hr; tauto]).
  - simpl. constructor. exact IH.
  - rewrite <- Permutation_middle. constructor. exact IH.
  - exact IH.
Qed.

(** The buckets of the rows 0 .. n-1 hold the entries of these rows. *)
Lemma buckets_Permutation (es : list (Z * Z * Z)) (n : nat) :
  concat (bucket es <$> seqZ 0 (Z.of_nat n))
    ≡ₚ filter (fun e => 0 <= e.1.1 < Z.of_nat n) es.
Proof.
  induction n as [|n IH].
  - simpl. symmetry. apply Permutation_nil_r.
    induction es as [|e es IHes]; [reflexivity|].
    rewrite filter_cons. destruct (decide _); [lia|exact IHes].
  - rewrite seqZ_S, fmap_app, concat_app, IH. cbn [fmap list_fmap concat].
    rewrite app_nil_r. unfold bucket. apply filter_disjoint_app.
    + intros e. lia.
    + intros e. lia.
Qed.

Lemma buckets_Permutation_all (es : list (Z * Z * Z)) (n : Z) :
  Forall (fun e => 0 <= e.1.1 < n) es ->
  concat (bucket es <$> seqZ 0 n) ≡ₚ es.
Proof.
  intros H. destruct (Z.le_gt_cases 0 n) as [Hn|Hn].
  - rewrite <- (Z2Nat.id n Hn), buckets_Permutation, (Z2Nat.id n Hn).
    induction H as [|e es He _ IH]; [reflexivity|].
    rewrite filter_cons. destruct (decide _); [|contradiction].
    constructor. exact IH.
  - destruct H as [|e es He _]; [|lia].
    unfold seqZ. rewrite Z2Nat.nonpos by lia. reflexivity.
Qed.

Lemma all_entries_rows (csr : CSRData) :
  Forall (fun e => 0 <= e.1.1 < d_num_rows csr) (all_entries csr).
Proof.
  apply Forall_forall. intros e He. unfold all_entries in He.
  apply list_elem_of_bind in He as (r & He & Hr).
  apply elem_of_seqZ in Hr. apply list_elem_of_fmap in He as (x & -> & _).
  simpl. lia.
Qed.

Lemma all_entries_cols (csr : CSRData) :
  cols_in_range csr = true ->
  Forall (fun e => 0 <= e.1.2 < d_num_cols csr) (all_entries csr).
Proof.
  intros H. apply Forall_forall. intros e He. unfold all_entries in He.
  apply list_elem_of_bind in He as (r & He & _).
  apply list_elem_of_fmap in He as ([c d] & -> & Hx).
  unfold row_entries in Hx. apply list_elem_of_omap in Hx as (j & _ & Hj).
  unfold entry in Hj. destruct (d_indices csr !! j) as [c'|] eqn:Ec; [|discriminate].
  cbn [mbind option_bind] in Hj.
  destruct (data_id csr j); [|discriminate]. injection Hj as -> ->.
  unfold cols_in_range in H. rewrite forallb_forall in H.
  specialize (H c). rewrite andb_true_iff, Z.leb_le, Z.ltb_lt in H.
  simpl. apply H. apply list_elem_of_In. eapply list_elem_of_lookup_2, Ec.
Qed.

Lemma bucket_tag_same (r : Z) (l : list (Z * Z)) :
  bucket (tag r <$> l) r = tag r <$> l.
Proof.
  unfold bucket. induction l as [|x l IH]; [reflexivity|].
  rewrite fmap_cons, filter_cons. destruct (decide _) as [_|E].
  - f_equal. exact IH.
  - destruct E. reflexivity.
Qed.

Lemma bucket_tag_other (r r' : Z) (l : list (Z * Z)) :
  r <> r' -> bucket (tag r' <$> l) r = [].
Proof.
  intros Hne. unfold bucket. induction l as [|x l IH]; [reflexivity|].
  rewrite fmap_cons, filter_cons. destruct (decide _) as [E|_]; [|exact IH].
  simpl in E. congruence.
Qed.

Lemma bucket_app (es es' : list (Z * Z * Z)) (r : Z) :
  bucket (es ++ es') r = bucket es r ++ bucket es' r.
Proof. apply filter_app. Qed.

Lemma bucket_tagged_other (f : Z -> list (Z * Z)) (rs : list Z) (r : Z) :
  r ∉ rs -> bucket (rs ≫= fun r' => tag r' <$> f r') r = [].
Proof.
  intros Hr. induction rs as [|r' rs IH]; [reflexivity|].
  apply not_elem_of_cons in Hr as [Hne Hr].
  rewrite bind_cons, bucket_app, (IH Hr), app_nil_r.
  apply bucket_tag_other, Hne.
Qed.

Lemma bucket_tagged (f : Z -> list (Z * Z)) (rs : list Z) (r : Z) :
  NoDup rs -> r ∈ rs ->
  bucket (rs ≫= fun r' => tag r' <$> f r') r = tag r <$> f r.
Proof.
  induction 1 as [|r' rs Hnot Hnd IH]; intros Hr; [inversion Hr|].
  rewrite bind_cons, bucket_app.
  destruct (decide (r = r')) as [->|Hne].
  - rewrite (bucket_tagged_other f rs r' Hnot), app_nil_r.
    apply bucket_tag_same.
  - apply elem_of_cons in Hr as [->|Hr]; [congruence|].
    rewrite (IH Hr), (bucket_tag_other r r' _ Hne). reflexivity.
Qed.

(** The bucket of row [r] of a matrix's own entries is row [r]. *)
Lemma bucket_all_entries (csr : CSRData) (r : Z) :
  0 <= r < d_num_rows csr ->
  bucket (all_entries csr) r = tag r <$> row_entries csr r.
Proof.
  intros Hr. unfold all_entries.
  apply (bucket_tagged (row_entries csr) (seqZ 0 (d_num_rows csr)) r).
  - apply NoDup_seqZ.
  - apply elem_of_seqZ. lia.
Qed.

(** Transposing swaps row and column of every entry and keeps its data
    id. *)
Lemma all_entries_CSRTranspose_swap (csr : CSRData) :
  Forall (fun e => 0 <= e.1.2 < d_num_cols csr) (all_entries csr) ->
  all_entries (CSRTranspose csr) ≡ₚ swap_entry <$> all_entries csr.
Proof.
  intros H. rewrite all_entries_CSRTranspose.
  apply buckets_Permutation_all.
  apply Forall_fmap. eapply Forall_impl; [exact H|].
  intros [[r c] d]. simpl. auto.
Qed.

(** C8. [CSRTranspose] swaps the shape.  For a matrix all of whose column
    ids are within [0, num_cols), the entries of the transposed matrix are
    the entries of the matrix with row and column swapped, and transposing
    twice gives back the shape and, row by row, the same multiset of
    (column, data id) entries, so the same multiset of (row, column,
    data id) entries overall; the sorted flag is left aside. *)
Theorem CSRTranspose_involution (M : CSRData) :
  d_num_rows (CSRTranspose M) = d_num_cols M /\
  d_num_cols (CSRTranspose M) = d_num_rows M /\
  (cols_in_range M = true ->
   all_entries (CSRTranspose M) ≡ₚ swap_entry <$> all_entries M /\
   d_num_rows (CSRTranspose (CSRTranspose M)) = d_num_rows M /\
   d_num_cols (CSRTranspose (CSRTranspose M)) = d_num_cols M /\
   (forall r, 0 <= r < d_num_rows M ->
      row_entries (CSRTranspose (CSRTranspose M)) r ≡ₚ row_entries M r) /\
   all_entries (CSRTranspose (CSRTranspose M)) ≡ₚ all_entries M).
Proof.
  split; [reflexivity|]. split; [reflexivity|]. intros Hcols.
  pose proof (all_entries_CSRTranspose_swap M (all_entries_cols M Hcols)) as HT.
  assert (HT' : Forall (fun e => 0 <= e.1.2 < d_num_cols (CSRTranspose M))
                  (all_entries (CSRTranspose M))).
  { rewrite HT. apply Forall_fmap.
    eapply Forall_impl; [apply all_entries_rows|].
    intros [[r c] d]. simpl. auto. }
  pose proof (all_entries_CSRTranspose_swap (CSRTranspose M) HT') as HTT.
  assert (E : swap_entry <$> all_entries (CSRTranspose M) ≡ₚ all_entries M).
  { rewrite HT, <- list_fmap_compose.
    erewrite Forall_fmap_ext_1; [rewrite list_fmap_id; reflexivity|].
    apply Forall_true. intros e. apply swap_entry_involutive. }
  split; [exact HT|]. split; [reflexivity|]. split; [reflexivity|]. split.
  - intros r Hr.
    rewrite row_entries_CSRTranspose by (cbn [CSRTranspose d_num_cols]; lia).
    unfold bucket. rewrite E. fold (bucket (all_entries M) r).
    rewrite (bucket_all_entries M r Hr), <- list_fmap_compose.
    erewrite Forall_fmap_ext_1; [rewrite list_fmap_id; reflexivity|].
    apply Forall_true. intros e. apply strip_tag.
  - rewrite HTT. exact E.
Qed.

Lemma CSRTranspose_involution_witness :
  cols_in_range example_data = true /\
  all_entries (CSRTranspose example_data)
    ≡ₚ swap_entry <$> all_entries example_data /\
  d_num_rows (CSRTranspose (CSRTranspose example_data))
    = d_num_rows example_data /\
  d_num_cols (CSRTranspose (CSRTranspose example_data))
    = d_num_cols example_data /\
  (forall r, 0 <= r < d_num_rows example_data ->
     row_entries (CSRTranspose (CSRTranspose example_data)) r
       ≡ₚ row_entries example_data r) /\
  all_entries (CSRTranspose (CSRTranspose example_data))
    ≡ₚ all_entries example_data.
Proof.
  split; [reflexivity|].
  apply (proj2 (proj2 (CSRTranspose_involution example_data))).
  reflexivity.
Defined.

(** * Further properties *)

(** ** Records in a stream *)

(** [Save] appends one record to whatever the stream holds. *)
Lemma Save_app (h : Heap) (m : CSRMatrix) (fs : Stream) :
  Save h m fs = fs ++ Save h m [].
Proof. unfold Save, Write. rewrite <- !app_assoc. reflexivity. Qed.

Lemma contents_middle3 (h : Heap) (t t' t'' : DLTensor) (r : Heap) :
  contents (h ++ t :: t' :: t'' :: r) (Some (S (S (length h)))) = Some t''.
Proof.
  simpl. rewrite lookup_app_r by lia.
  replace (S (S (length h)) - length h)%nat with 2%nat by lia. reflexivity.
Qed.

(** [Load] on the seven fields of a record. *)
Lemma Load_seven_fields h this nc nr p i d s rest :
  Load h this (FU64 kDGLSerialize_AtenCsrMatrixMagic :: FI64 nc :: FI64 nr
                 :: FArray p :: FArray i :: FArray d :: FBool s :: rest) =
    (m ← CSRMatrix_new (loaded (loaded (loaded h p).2 i).2 d).2 nr nc
           (loaded h p).1 (loaded (loaded h p).2 i).1
           (loaded (loaded (loaded h p).2 i).2 d).1 s;
     Ok (m, (loaded (loaded (loaded h p).2 i).2 d).2, rest)).
Proof.
  unfold Load. cbn [Read_u64 Read_i64 Read_bool CHECK_Read mbind Result_bind].
  rewrite Z.eqb_refl. cbn [CHECK mbind Result_bind].
  rewrite Read_array_loaded. destruct (loaded h p) as [parr h1].
  cbn [CHECK_Read mbind Result_bind fst snd].
  rewrite Read_array_loaded. destruct (loaded h1 i) as [iarr h2].
  cbn [CHECK_Read mbind Result_bind fst snd].
  rewrite Read_array_loaded. destruct (loaded h2 d) as [darr h3].
  cbn [CHECK_Read mbind Result_bind fst snd].
  unfold CSRMatrix_new. simpl.
  destruct (CheckValidity h3 _) as [[]|f]; reflexivity.
Qed.

(** Reading back the record of a matrix that passes [CheckValidity]: the
    matrix read has buffers of its own after those of the store read into,
    and shows the arrays of the matrix written. *)
Lemma Load_of_Save h m h0 this rest p i :
  CheckValidity h m = Ok tt ->
  contents h (indptr m) = Some p ->
  contents h (indices m) = Some i ->
  exists darr tl,
    Load h0 this (Save h m [] ++ rest)
      = Ok ({| num_rows := num_rows m; num_cols := num_cols m;
               indptr := Some (length h0); indices := Some (S (length h0));
               data := darr; sorted := sorted m |},
            h0 ++ p :: i :: tl, rest) /\
    ((data m = None /\ darr = None /\ tl = []) \/
     (exists d, IsNullArray (data m) = false /\ contents h (data m) = Some d /\
                darr = Some (S (S (length h0))) /\ tl = [d])).
Proof.
  intros HV Hp Hi. pose proof HV as HC. apply CheckValidity_checked in HC.
  destruct HC as (p' & i' & Hp' & Hi' & E1 & E2 & Hd & Hr & Hc & Hl).
  assert (p' = p) by congruence. assert (i' = i) by congruence. subst p' i'.
  unfold Save, Write. cbn [app]. rewrite Hp, Hi, Load_seven_fields.
  cbn [loaded alloc fst snd]. rewrite length_app. cbn [length].
  rewrite Nat.add_1_r, <- app_assoc. cbn [app].
  destruct (data m) as [ld|] eqn:ED.
  - destruct Hd as (d & Hd & E3 & E4); [reflexivity|].
    cbn [contents] in *. rewrite Hd. cbn [loaded alloc fst snd].
    rewrite length_app. cbn [length].
    replace (length h0 + 2)%nat with (S (S (length h0))) by lia.
    rewrite <- app_assoc. cbn [app].
    exists (Some (S (S (length h0)))), [d]. split.
    + set (m' := {| num_rows := num_rows m; num_cols := num_cols m;
                    indptr := Some (length h0); indices := Some (S (length h0));
                    data := Some (S (S (length h0))); sorted := sorted m |}).
      assert (HV' : CheckValidity (h0 ++ [p; i; d]) m' = Ok tt).
      { apply CheckValidity_checked. exists p, i.
        repeat split; try assumption.
        - apply contents_middle.
        - apply contents_middle2.
        - intros _. exists d. repeat split; try assumption.
          apply contents_middle3. }
      unfold CSRMatrix_new. fold m'. rewrite HV'. reflexivity.
    + right. exists d. repeat split.
  - cbn [contents loaded fst snd].
    exists None, []. split.
    + set (m' := {| num_rows := num_rows m; num_cols := num_cols m;
                    indptr := Some (length h0); indices := Some (S (length h0));
                    data := None; sorted := sorted m |}).
      assert (HV' : CheckValidity (h0 ++ [p; i]) m' = Ok tt).
      { apply CheckValidity_checked. exists p, i.
        repeat split; try assumption; try discriminate.
        - apply contents_middle.
        - apply contents_middle2. }
      unfold CSRMatrix_new. fold m'. rewrite HV'. reflexivity.
    + left. auto.
Qed.

(** X1. [Load] reads back what [Save] wrote.  For a matrix that passes
    [CheckValidity], loading its record (whatever follows it in the stream,
    whatever store is read into and whatever [this] held before) returns a
    matrix that shows the same shape, arrays and flag and passes
    [CheckValidity]; the arrays read are new buffers, the buffers of the
    store are left as they are, and the rest of the stream is left
    unread. *)
Theorem Load_Save_round_trip
    (h : Heap) (m : CSRMatrix) (h0 : Heap) (this : CSRMatrix) (rest : Stream) :
  CheckValidity h m = Ok tt ->
  exists m' h1 v,
    Load h0 this (Save h m [] ++ rest) = Ok (m', h1, rest) /\
    view h m = Ok v /\ view h1 m' = Ok v /\
    CheckValidity h1 m' = Ok tt /\
    contents h0 (indptr m') = None /\
    contents h0 (indices m') = None /\
    (IsNullArray (data m') = false -> contents h0 (data m') = None) /\
    (forall a t, contents h0 a = Some t -> contents h1 a = Some t).
Proof.
  intros HV. pose proof HV as HC. apply CheckValidity_checked in HC.
  destruct HC as (p & i & Hp & Hi & _).
  destruct (Load_of_Save h m h0 this rest p i HV Hp Hi)
    as (darr & tl & HL & Hcase).
  assert (Hfresh : forall l, (length h0 <= l)%nat -> contents h0 (Some l) = None)
    by (intros l Hl; simpl; apply lookup_ge_None; lia).
  destruct Hcase as [(ED & -> & ->)|(d & En & Hd & -> & ->)].
  - eexists _, _, _. split; [exact HL|].
    split; [apply (view_nodata h m p i Hp Hi ED)|].
    split; [|split; [eapply Load_Ok_CheckValidity, HL|]].
    + rewrite (view_nodata _ _ p i); [reflexivity| | |reflexivity].
      * apply contents_middle.
      * apply contents_middle2.
    + repeat split.
      * apply Hfresh. cbn [indptr]. lia.
      * apply Hfresh. cbn [indices]. lia.
      * intros a t. apply contents_app.
  - eexists _, _, _. split; [exact HL|].
    split; [apply (view_data h m p i d Hp Hi En Hd)|].
    split; [|split; [eapply Load_Ok_CheckValidity, HL|]].
    + rewrite (view_data _ _ p i d); [reflexivity| | |reflexivity|].
      * apply contents_middle.
      * apply contents_middle2.
      * apply contents_middle3.
    + repeat split.
      * apply Hfresh. cbn [indptr]. lia.
      * apply Hfresh. cbn [indices]. lia.
      * intros _. apply Hfresh. cbn [data]. lia.
      * intros a t. apply contents_app.
Qed.

Lemma Load_Save_round_trip_witness :
  exists m' h1 v,
    Load [] CSRMatrix_default (Save example_heap example_csr [] ++ [FBool true])
      = Ok (m', h1, [FBool true]) /\
    view example_heap example_csr = Ok v /\ view h1 m' = Ok v /\
    CheckValidity h1 m' = Ok tt /\
    contents [] (indptr m') = None /\
    contents [] (indices m') = None /\
    (IsNullArray (data m') = false -> contents [] (data m') = None) /\
    (forall a t, contents [] a = Some t -> contents h1 a = Some t).
Proof.
  apply (Load_Save_round_trip example_heap example_csr [] CSRMatrix_default
           [FBool true]).
  reflexivity.
Defined.

(** X2. [Save] does not validate and [Load] does.  For a matrix whose
    arrays have buffers at one location (the data array may be null),
    loading its record returns if and only if the matrix passes
    [CheckValidity], that is, if and only if its arrays share the element
    type, the element type can hold the shape and [indptr] has
    [num_rows + 1] elements. *)
Theorem Load_Save_validates
    (h : Heap) (m : CSRMatrix) (h0 : Heap) (this : CSRMatrix) (rest : Stream) :
  one_location h m ->
  ((exists r, Load h0 this (Save h m [] ++ rest) = Ok r) <->
   CheckValidity h m = Ok tt).
Proof.
  intros Hloc.
  assert (Hlive : data_live h m).
  { destruct Hloc as (p & i & _ & _ & _ & [Hn|(d & Hd & _)]).
    - left. exact Hn.
    - right. eauto. }
  clear Hloc. split.
  - intros [r HL]. unfold Save, Write in HL. cbn [app] in HL.
    rewrite Load_seven_fields in HL.
    apply bind_Ok in HL as (m' & Hnew & _).
    apply CSRMatrix_new_Ok in Hnew as [-> HV].
    apply CheckValidity_checked in HV.
    destruct HV as (tp & ti & Hp & Hi & E1 & E2 & Hd & Hr & Hc & Hl).
    cbn [indptr indices data num_rows num_cols] in *.
    destruct (contents h (indptr m)) as [p|] eqn:Ep;
      [|destruct (contents h (indices m)), (contents h (data m));
        discriminate Hp].
    destruct (contents h (indices m)) as [i|] eqn:Ei;
      [|destruct (contents h (data m)); discriminate Hi].
    cbn [loaded alloc fst snd] in *.
    rewrite length_app in *. cbn [length] in *. rewrite Nat.add_1_r in *.
    destruct (contents h (data m)) as [d|] eqn:Ed;
      cbn [loaded alloc fst snd] in *; rewrite <- ?app_assoc in *;
      cbn [app] in *; rewrite contents_middle in Hp;
      rewrite contents_middle2 in Hi; injection Hp as <-; injection Hi as <-;
      apply CheckValidity_checked; exists p, i;
      rewrite Ed; repeat split; try assumption; intros Hn.
    + destruct Hd as (td & Htd & E3 & E4); [reflexivity|].
      rewrite length_app in Htd. cbn [length] in Htd.
      replace (length h0 + 2)%nat with (S (S (length h0))) in Htd by lia.
      rewrite contents_middle3 in Htd. injection Htd as <-. eauto.
    + destruct Hlive as [Hnull|[td Htd]]; congruence.
  - intros HV. pose proof HV as HC. apply CheckValidity_checked in HC.
    destruct HC as (p & i & Hp & Hi & _).
    destruct (Load_of_Save h m h0 this rest p i HV Hp Hi) as (darr & tl & HL & _).
    eauto.
Qed.

Lemma Load_Save_validates_witness :
  one_location unchecked_heap (set_num_rows 5 unchecked_csr) /\
  ((exists r, Load [] CSRMatrix_default
                (Save unchecked_heap (set_num_rows 5 unchecked_csr) [] ++ [])
              = Ok r) <->
   CheckValidity unchecked_heap (set_num_rows 5 unchecked_csr) = Ok tt).
Proof.
  assert (H : one_location unchecked_heap (set_num_rows 5 unchecked_csr)).
  { exists (array_of cpu [3; 1]), (array_of cpu []).
    repeat split. right. exists (array_of cpu [7; 7]). split; reflexivity. }
  split; [exact H|].
  apply (Load_Save_validates unchecked_heap (set_num_rows 5 unchecked_csr)
           [] CSRMatrix_default [] H).
Defined.

(** X3. A record cut short does not load.  On a stream that ends before
    the magic value, before [num_cols] or before [num_rows], [Load] fails
    with the message of the field that is missing; so it does, with
    "Invalid sorted", on the record of a matrix whose arrays have buffers
    when only the sorted flag is missing. *)
Theorem Load_truncated
    (h : Heap) (m : CSRMatrix) (h0 : Heap) (this : CSRMatrix) (k : nat) :
  k = 0%nat \/ k = 1%nat \/ k = 2%nat \/
  (k = 6%nat /\ is_Some (contents h (indptr m)) /\
   is_Some (contents h (indices m)) /\ array_live h (data m)) ->
  exists msg,
    Load_messages !! k = Some msg /\
    Load h0 this (take k (Save h m [])) = Err (CheckFailed msg).
Proof.
  intros Hk. unfold Save, Write. cbn [app].
  destruct Hk as [->|[->|[->|(-> & _)]]];
    (eexists; split; [reflexivity|]; unfold Load;
     cbn [take firstn Read_u64 Read_i64 Read_bool CHECK_Read
            mbind Result_bind];
     rewrite ?Z.eqb_refl; cbn [CHECK mbind Result_bind];
     repeat (rewrite Read_array_loaded;
             match goal with
             | |- context [loaded ?x ?y] => destruct (loaded x y) as [? ?]
             end;
             cbn [CHECK_Read mbind Result_bind]);
     reflexivity).
Qed.

Lemma Load_truncated_witness :
  exists msg,
    Load_messages !! 6%nat = Some msg /\
    Load [] CSRMatrix_default (take 6 (Save example_heap example_csr []))
      = Err (CheckFailed msg).
Proof.
  apply (Load_truncated example_heap example_csr [] CSRMatrix_default 6).
  right. right. right. split; [reflexivity|].
  split; [eexists; reflexivity|]. split; [eexists; reflexivity|].
  right. eexists. reflexivity.
Defined.

(** X4. [Load] overwrites every field of [this]: its outcome does not
    depend on what [this] held before. *)
Theorem Load_overwrites (h : Heap) (this this' : CSRMatrix) (fs : Stream) :
  Load h this fs = Load h this' fs.
Proof.
  unfold Load.
  destruct (Read_u64 fs) as [[magicNum fs1]|]; [|reflexivity].
  cbn [CHECK_Read mbind Result_bind].
  destruct (CHECK _ _) as [[]|f]; [|reflexivity]. cbn [mbind Result_bind].
  destruct (Read_i64 fs1) as [[nc fs2]|]; [|reflexivity].
  cbn [CHECK_Read mbind Result_bind].
  destruct (Read_i64 fs2) as [[nr fs3]|]; [|reflexivity].
  cbn [CHECK_Read mbind Result_bind].
  destruct (Read_array h fs3) as [[[parr h1] fs4]|]; [|reflexivity].
  cbn [CHECK_Read mbind Result_bind].
  destruct (Read_array h1 fs4) as [[[iarr h2] fs5]|]; [|reflexivity].
  cbn [CHECK_Read mbind Result_bind].
  destruct (Read_array h2 fs5) as [[[darr h3] fs6]|]; [|reflexivity].
  cbn [CHECK_Read mbind Result_bind].
  destruct (Read_bool fs6) as [[s fs7]|]; reflexivity.
Qed.

(** ** Copies between locations *)

Lemma relocated_back (t : DLTensor) (c : DLContext) :
  relocated (ctx t) (relocated c t) = t.
Proof. destruct t. reflexivity. Qed.

(** [CopyTo] to another location, for a matrix whose arrays have buffers:
    the copies follow the buffers of the store, and the constructor decides
    the outcome. *)
Lemma CopyTo_elsewhere h M c p i :
  contents h (indptr M) = Some p ->
  contents h (indices M) = Some i ->
  c <> ctx p ->
  (data M = None ->
   CopyTo h M c =
     (ret ← CSRMatrix_new (h ++ [relocated c p; relocated c i])
              (num_rows M) (num_cols M) (Some (length h)) (Some (S (length h)))
              None (sorted M);
      Ok (ret, h ++ [relocated c p; relocated c i]))) /\
  (forall d, IsNullArray (data M) = false -> contents h (data M) = Some d ->
   CopyTo h M c =
     (ret ← CSRMatrix_new (h ++ [relocated c p; relocated c i; relocated c d])
              (num_rows M) (num_cols M) (Some (length h)) (Some (S (length h)))
              (Some (S (S (length h)))) (sorted M);
      Ok (ret, h ++ [relocated c p; relocated c i; relocated c d]))).
Proof.
  intros Hp Hi Hne.
  assert (E' : CopyTo h M c =
    ('(darr, h3) ← (if IsNullArray (data M)
                    then Ok (data M, h ++ [relocated c p; relocated c i])
                    else NDArray_CopyTo (h ++ [relocated c p; relocated c i])
                           (data M) c);
     ret ← CSRMatrix_new h3 (num_rows M) (num_cols M) (Some (length h))
             (Some (S (length h))) darr (sorted M);
     Ok (ret, h3))).
  { unfold CopyTo.
    rewrite (proj2 (deref_Ok _ _ _) Hp). cbn [mbind Result_bind].
    rewrite (proj2 (DLContext_eqb_neq _ _) Hne).
    rewrite (NDArray_CopyTo_Ok _ _ _ _ Hp). cbn [mbind Result_bind].
    rewrite (NDArray_CopyTo_Ok (h ++ [_]) _ c i) by (apply contents_app, Hi).
    cbn [mbind Result_bind]. rewrite <- app_assoc, length_app. cbn [app length].
    rewrite Nat.add_1_r. reflexivity. }
  split.
  - intros Hd. rewrite E', Hd. reflexivity.
  - intros d Hn Hd. rewrite E', Hn.
    rewrite (NDArray_CopyTo_Ok _ _ c d)
      by (apply contents_app, Hd).
    cbn [mbind Result_bind]. rewrite <- app_assoc, length_app. cbn [app length].
    replace (length h + 2)%nat with (S (S (length h))) by lia. reflexivity.
Qed.

(** X5. [CopyTo] validates only when it copies.  To the location of its
    [indptr] buffer a matrix is returned as it is, valid or not.  To
    another location [CopyTo] returns if and only if the matrix satisfies
    the conditions of [CheckValidity] other than the shared location: as
    all copies are made at the target location, arrays that were at
    different locations do not make it fail, and what it returns passes
    [CheckValidity]. *)
Theorem CopyTo_validates_when_copying
    (h : Heap) (M : CSRMatrix) (c : DLContext) (p : DLTensor) :
  contents h (indptr M) = Some p ->
  array_live h (indices M) ->
  array_live h (data M) ->
  (c = ctx p -> CopyTo h M c = Ok (M, h)) /\
  (c <> ctx p ->
   ((exists r, CopyTo h M c = Ok r) <-> checked_but_location h M) /\
   (forall M' h', CopyTo h M c = Ok (M', h') -> CheckValidity h' M' = Ok tt)).
Proof.
  intros Hp Hli Hld. split.
  - intros ->. unfold CopyTo. rewrite (proj2 (deref_Ok _ _ _) Hp).
    cbn [mbind Result_bind].
    rewrite (proj2 (DLContext_eqb_eq _ _) eq_refl). reflexivity.
  - intros Hne.
    assert (Hnull : indices M = None -> CopyTo h M c = Err NullHandle).
    { intros Hi. unfold CopyTo. rewrite (proj2 (deref_Ok _ _ _) Hp).
      cbn [mbind Result_bind].
      rewrite (proj2 (DLContext_eqb_neq _ _) Hne).
      rewrite (NDArray_CopyTo_Ok _ _ _ _ Hp). cbn [mbind Result_bind].
      rewrite Hi. reflexivity. }
    assert (Hcase : data M = None \/
              exists d, IsNullArray (data M) = false /\
                        contents h (data M) = Some d).
    { destruct Hld as [Hn|[d Hd]].
      - left. destruct (data M); [discriminate Hn|reflexivity].
      - right. exists d. split; [|exact Hd].
        destruct (data M); [reflexivity|discriminate Hd]. }
    assert (Hvalid : forall M' h', CopyTo h M c = Ok (M', h') ->
              CheckValidity h' M' = Ok tt).
    { intros M' h' HC. unfold CopyTo in HC.
      apply bind_Ok in HC as (p' & Hp' & HC). apply deref_Ok in Hp'.
      assert (p' = p) by congruence. subst p'.
      destruct (DLContext_eqb c (ctx p)) eqn:Eq.
      - apply DLContext_eqb_eq in Eq. contradiction.
      - apply bind_Ok in HC as ([parr h1] & _ & HC).
        apply bind_Ok in HC as ([iarr h2] & _ & HC).
        apply bind_Ok in HC as ([darr h3] & _ & HC).
        apply bind_Ok in HC as (ret & Hnew & HC).
        apply CSRMatrix_new_Ok in Hnew as [_ HV].
        injection HC as EM Eh. subst. exact HV. }
    split; [split|exact Hvalid].
    + intros [[M' h'] HC].
      destruct Hli as [Hn|[i Hi]].
      { destruct (indices M) eqn:Ei; [discriminate Hn|].
        rewrite (Hnull eq_refl) in HC. discriminate HC. }
      destruct (CopyTo_elsewhere h M c p i Hp Hi Hne) as [EN ED].
      destruct Hcase as [Hd|(d & Hn & Hd)].
      * rewrite (EN Hd) in HC.
        apply bind_Ok in HC as (ret & Hnew & _).
        apply CSRMatrix_new_Ok in Hnew as [-> HV].
        apply CheckValidity_checked in HV.
        destruct HV as (tp & ti & Hp' & Hi' & E1 & _ & _ & Hr & Hc & Hl).
        cbn [indptr indices data num_rows num_cols] in *.
        rewrite contents_middle in Hp'. rewrite contents_middle2 in Hi'.
        injection Hp' as <-. injection Hi' as <-.
        exists p, i. rewrite Hd. repeat split; try assumption. discriminate.
      * rewrite (ED d Hn Hd) in HC.
        apply bind_Ok in HC as (ret & Hnew & _).
        apply CSRMatrix_new_Ok in Hnew as [-> HV].
        apply CheckValidity_checked in HV.
        destruct HV as (tp & ti & Hp' & Hi' & E1 & _ & Hd' & Hr & Hc & Hl).
        cbn [indptr indices data num_rows num_cols] in *.
        rewrite contents_middle in Hp'. rewrite contents_middle2 in Hi'.
        injection Hp' as <-. injection Hi' as <-.
        destruct Hd' as (td & Htd & E3 & _); [reflexivity|].
        rewrite contents_middle3 in Htd. injection Htd as <-.
        exists p, i. repeat split; try assumption.
        intros _. exists d. split; [exact Hd|exact E3].
    + intros (p' & i & Hp' & Hi & E1 & Hd & Hr & Hc & Hl).
      assert (p' = p) by congruence. subst p'.
      destruct (CopyTo_elsewhere h M c p i Hp Hi Hne) as [EN ED].
      destruct Hcase as [Hdn|(d & Hn & Hdd)].
      * rewrite (EN Hdn).
        set (M' := {| num_rows := num_rows M; num_cols := num_cols M;
                      indptr := Some (length h); indices := Some (S (length h));
                      data := None; sorted := sorted M |}).
        assert (HV : CheckValidity (h ++ [relocated c p; relocated c i]) M'
                     = Ok tt).
        { apply CheckValidity_checked.
          exists (relocated c p), (relocated c i).
          repeat split; try assumption; try discriminate.
          - apply contents_middle.
          - apply contents_middle2. }
        unfold CSRMatrix_new. fold M'. rewrite HV. eexists. reflexivity.
      * rewrite (ED d Hn Hdd).
        destruct (Hd Hn) as (d' & Hd' & E3).
        assert (d' = d) by congruence. subst d'.
        set (M' := {| num_rows := num_rows M; num_cols := num_cols M;
                      indptr := Some (length h); indices := Some (S (length h));
                      data := Some (S (S (length h))); sorted := sorted M |}).
        assert (HV : CheckValidity
                       (h ++ [relocated c p; relocated c i; relocated c d]) M'
                     = Ok tt).
        { apply CheckValidity_checked.
          exists (relocated c p), (relocated c i).
          repeat split; try assumption.
          - apply contents_middle.
          - apply contents_middle2.
          - intros _. exists (relocated c d). repeat split; try assumption.
            apply contents_middle3. }
        unfold CSRMatrix_new. fold M'. rewrite HV. eexists. reflexivity.
Qed.

Lemma CopyTo_validates_when_copying_witness :
  array_live split_heap (indices split_csr) /\
  array_live split_heap (data split_csr) /\
  (exists f, CheckValidity split_heap split_csr = Err f) /\
  (cpu = cpu -> CopyTo split_heap split_csr cpu = Ok (split_csr, split_heap)) /\
  (gpu0 <> cpu ->
   ((exists r, CopyTo split_heap split_csr gpu0 = Ok r)
      <-> checked_but_location split_heap split_csr) /\
   (forall M' h', CopyTo split_heap split_csr gpu0 = Ok (M', h') ->
                  CheckValidity h' M' = Ok tt)).
Proof.
  assert (Hi : array_live split_heap (indices split_csr))
    by (right; eexists; reflexivity).
  assert (Hd : array_live split_heap (data split_csr)) by (left; reflexivity).
  split; [exact Hi|]. split; [exact Hd|].
  split; [eexists; reflexivity|].
  pose proof (CopyTo_validates_when_copying split_heap split_csr cpu
                (array_of cpu [0; 1]) eq_refl Hi Hd) as [H1 _].
  pose proof (CopyTo_validates_when_copying split_heap split_csr gpu0
                (array_of cpu [0; 1]) eq_refl Hi Hd) as [_ H2].
  split; [exact H1|exact H2].
Defined.

(** A valid matrix copied to another location: a valid matrix on new
    buffers at that location that shows the same arrays. *)
Lemma CopyTo_valid_elsewhere h M c p v :
  CheckValidity h M = Ok tt ->
  contents h (indptr M) = Some p ->
  view h M = Ok v ->
  c <> ctx p ->
  exists M1 h1,
    CopyTo h M c = Ok (M1, h1) /\
    CheckValidity h1 M1 = Ok tt /\
    indptr M1 = Some (length h) /\
    contents h1 (indptr M1) = Some (relocated c p) /\
    view h1 M1 = Ok v /\
    (forall a t, contents h a = Some t -> contents h1 a = Some t).
Proof.
  intros HV Hp Hv Hne. apply CheckValidity_checked in HV.
  destruct HV as (p' & i & Hp' & Hi & E1 & E2 & Hd & Hr & Hc & Hl).
  assert (p' = p) by congruence. subst p'.
  destruct (CopyTo_elsewhere h M c p i Hp Hi Hne) as [EN ED].
  destruct (data M) as [ld|] eqn:Edata.
  - destruct Hd as (d & Hd & E3 & E4); [reflexivity|].
    rewrite (ED d eq_refl Hd).
    set (h1 := h ++ [relocated c p; relocated c i; relocated c d]).
    set (M1 := {| num_rows := num_rows M; num_cols := num_cols M;
                  indptr := Some (length h); indices := Some (S (length h));
                  data := Some (S (S (length h))); sorted := sorted M |}).
    assert (Hp1 : contents h1 (indptr M1) = Some (relocated c p))
      by apply contents_middle.
    assert (Hi1 : contents h1 (indices M1) = Some (relocated c i))
      by apply contents_middle2.
    assert (Hd1 : contents h1 (data M1) = Some (relocated c d))
      by apply contents_middle3.
    assert (HV1 : CheckValidity h1 M1 = Ok tt).
    { apply CheckValidity_checked. exists (relocated c p), (relocated c i).
      repeat split; try assumption.
      intros _. exists (relocated c d). repeat split; assumption. }
    unfold CSRMatrix_new. fold M1. rewrite HV1. cbn [mbind Result_bind].
    exists M1, h1. repeat split; try assumption.
    + rewrite (view_data h1 M1 _ _ _ Hp1 Hi1 eq_refl Hd1).
      rewrite (view_data h M p i d Hp Hi) in Hv;
        [exact Hv|rewrite Edata; reflexivity|rewrite Edata; exact Hd].
    + intros a t. apply contents_app.
  - rewrite (EN eq_refl).
    set (h1 := h ++ [relocated c p; relocated c i]).
    set (M1 := {| num_rows := num_rows M; num_cols := num_cols M;
                  indptr := Some (length h); indices := Some (S (length h));
                  data := None; sorted := sorted M |}).
    assert (Hp1 : contents h1 (indptr M1) = Some (relocated c p))
      by apply contents_middle.
    assert (Hi1 : contents h1 (indices M1) = Some (relocated c i))
      by apply contents_middle2.
    assert (HV1 : CheckValidity h1 M1 = Ok tt).
    { apply CheckValidity_checked. exists (relocated c p), (relocated c i).
      repeat split; try assumption; discriminate. }
    unfold CSRMatrix_new. fold M1. rewrite HV1. cbn [mbind Result_bind].
    exists M1, h1. repeat split; try assumption.
    + rewrite (view_nodata h1 M1 _ _ Hp1 Hi1 eq_refl).
      rewrite (view_nodata h M p i Hp Hi Edata) in Hv. exact Hv.
    + intros a t. apply contents_app.
Qed.

(** X6. Copies compose.  Let [M] pass [CheckValidity] with its [indptr]
    at location [ctx p], and let [c] be another location.  Copying to [c]
    and copying the result to [c] again returns that result itself;
    copying it back to [ctx p] returns a valid matrix that shows the same
    shape, arrays and flag as [M] on buffers other than those of [M], its
    [indptr] buffer being equal to that of [M]; the buffers of [M] are
    unchanged throughout. *)
Theorem CopyTo_there_and_back
    (h : Heap) (M : CSRMatrix) (c : DLContext) (p : DLTensor) (v : CSRData) :
  CheckValidity h M = Ok tt ->
  contents h (indptr M) = Some p ->
  view h M = Ok v ->
  c <> ctx p ->
  exists M1 h1 M2 h2,
    CopyTo h M c = Ok (M1, h1) /\
    CopyTo h1 M1 c = Ok (M1, h1) /\
    CopyTo h1 M1 (ctx p) = Ok (M2, h2) /\
    view h1 M1 = Ok v /\ view h2 M2 = Ok v /\ view h2 M = Ok v /\
    CheckValidity h2 M2 = Ok tt /\
    indptr M2 <> indptr M /\
    contents h2 (indptr M2) = Some p /\
    contents h2 (indptr M) = Some p.
Proof.
  intros HV Hp Hv Hne.
  destruct (CopyTo_valid_elsewhere h M c p v HV Hp Hv Hne)
    as (M1 & h1 & HC1 & HV1 & Ep1 & Hp1 & Hv1 & Hframe1).
  assert (Hne' : ctx p <> ctx (relocated c p)) by (cbn; congruence).
  destruct (CopyTo_valid_elsewhere h1 M1 (ctx p) (relocated c p) v
              HV1 Hp1 Hv1 Hne')
    as (M2 & h2 & HC2 & HV2 & Ep2 & Hp2 & Hv2 & Hframe2).
  exists M1, h1, M2, h2. rewrite relocated_back in Hp2.
  repeat split; try assumption.
  - unfold CopyTo. rewrite (proj2 (deref_Ok _ _ _) Hp1).
    cbn [mbind Result_bind relocated ctx].
    rewrite (proj2 (DLContext_eqb_eq _ _) eq_refl). reflexivity.
  - unfold view in Hv |- *.
    apply bind_Ok in Hv as (p' & Hp' & Hv). apply bind_Ok in Hv as (i & Hi & Hv).
    apply bind_Ok in Hv as (d & Hd & Hv). apply deref_Ok in Hp', Hi.
    rewrite (proj2 (deref_Ok _ _ _) (Hframe2 _ _ (Hframe1 _ _ Hp'))).
    rewrite (proj2 (deref_Ok _ _ _) (Hframe2 _ _ (Hframe1 _ _ Hi))).
    cbn [mbind Result_bind].
    destruct (IsNullArray (data M)).
    + rewrite Hd. exact Hv.
    + apply bind_Ok in Hd as (t & Ht & Hd). apply deref_Ok in Ht.
      rewrite (proj2 (deref_Ok _ _ _) (Hframe2 _ _ (Hframe1 _ _ Ht))).
      cbn [mbind Result_bind]. injection Hd as <-. exact Hv.
  - rewrite Ep2. intros E. rewrite <- E in Hp. cbn [contents] in Hp.
    apply lookup_lt_Some in Hp.
    assert (length h <= length h1)%nat.
    { rewrite Ep1 in Hp1. cbn [contents] in Hp1.
      apply lookup_lt_Some in Hp1. lia. }
    lia.
  - apply Hframe2, Hframe1, Hp.
Qed.

Lemma CopyTo_there_and_back_witness :
  exists M1 h1 M2 h2,
    CopyTo example_heap example_csr gpu0 = Ok (M1, h1) /\
    CopyTo h1 M1 gpu0 = Ok (M1, h1) /\
    CopyTo h1 M1 cpu = Ok (M2, h2) /\
    view h1 M1 = Ok example_data /\ view h2 M2 = Ok example_data /\
    view h2 example_csr = Ok example_data /\
    CheckValidity h2 M2 = Ok tt /\
    indptr M2 <> indptr example_csr /\
    contents h2 (indptr M2) = Some (array_of cpu [0; 2; 3; 3; 5]) /\
    contents h2 (indptr example_csr) = Some (array_of cpu [0; 2; 3; 3; 5]).
Proof.
  apply (CopyTo_there_and_back example_heap example_csr gpu0
           (array_of cpu [0; 2; 3; 3; 5]) example_data).
  - reflexivity.
  - reflexivity.
  - reflexivity.
  - discriminate.
Defined.

(** ** The host interchange record *)

(** X7. From a matrix to the interchange record and back.  The
    constructor from [SparseMatrix] applied to [ToSparseMatrix] of a matrix
    returns that very matrix, with the same array handles, when the matrix
    passes [CheckValidity], and fails with the fault of [CheckValidity]
    otherwise; [ToSparseMatrix] itself never fails and carries the tag of
    CSR, the three arrays in the order indptr, indices, data, and the
    sorted flag. *)
Theorem SparseMatrix_round_trip (kCSR : Z) (h : Heap) (m : CSRMatrix) :
  (CheckValidity h m = Ok tt ->
   CSRMatrix_of_SparseMatrix h (ToSparseMatrix kCSR m) = Ok m) /\
  (forall f, CheckValidity h m = Err f ->
   CSRMatrix_of_SparseMatrix h (ToSparseMatrix kCSR m) = Err f) /\
  SparseMatrix.format (ToSparseMatrix kCSR m) = kCSR /\
  SparseMatrix.indices (ToSparseMatrix kCSR m) = [indptr m; indices m; data m] /\
  SparseMatrix.flags (ToSparseMatrix kCSR m) = [sorted m].
Proof.
  assert (E : CSRMatrix_of_SparseMatrix h (ToSparseMatrix kCSR m)
              = (CheckValidity h m;; Ok m)).
  { unfold CSRMatrix_of_SparseMatrix, ToSparseMatrix, vector_at.
    destruct m. reflexivity. }
  repeat split.
  - intros HV. rewrite E, HV. reflexivity.
  - intros f HV. rewrite E, HV. reflexivity.
Qed.

Lemma SparseMatrix_round_trip_witness :
  CSRMatrix_of_SparseMatrix example_heap (ToSparseMatrix 2 example_csr)
    = Ok example_csr /\
  CSRMatrix_of_SparseMatrix unchecked_heap
    (ToSparseMatrix 2 (set_num_rows 5 unchecked_csr))
    = Err (CheckFailed "CHECK_EQ(indptr->shape[0], num_rows + 1)").
Proof.
  split.
  - apply (proj1 (SparseMatrix_round_trip 2 example_heap example_csr)).
    reflexivity.
  - apply (proj1 (proj2 (SparseMatrix_round_trip 2 unchecked_heap
                           (set_num_rows 5 unchecked_csr)))).
    reflexivity.
Defined.

Lemma vector_at_Ok {A} (v : list A) (k : nat) (x : A) :
  vector_at v k = Ok x <-> v !! k = Some x.
Proof. unfold vector_at. destruct (v !! k); split; congruence. Qed.

(** X8. From the interchange record to a matrix and back.  The
    constructor from [SparseMatrix] reads the shape, the first three arrays
    and the first flag, and never the format tag: changing the tag does not
    change its outcome.  When it returns, [ToSparseMatrix] of its result is
    the record given exactly when that record carries the tag of CSR,
    three arrays and one flag. *)
Theorem SparseMatrix_format_not_read
    (kCSR : Z) (h : Heap) (spmat : SparseMatrix.t) :
  (forall fmt,
     CSRMatrix_of_SparseMatrix h
       (SparseMatrix.mk fmt (SparseMatrix.num_rows spmat)
          (SparseMatrix.num_cols spmat) (SparseMatrix.indices spmat)
          (SparseMatrix.flags spmat))
     = CSRMatrix_of_SparseMatrix h spmat) /\
  (forall m,
     CSRMatrix_of_SparseMatrix h spmat = Ok m ->
     ToSparseMatrix kCSR m =
       SparseMatrix.mk kCSR (SparseMatrix.num_rows spmat)
         (SparseMatrix.num_cols spmat) (take 3 (SparseMatrix.indices spmat))
         (take 1 (SparseMatrix.flags spmat)) /\
     (ToSparseMatrix kCSR m = spmat <->
      SparseMatrix.format spmat = kCSR /\
      length (SparseMatrix.indices spmat) = 3%nat /\
      length (SparseMatrix.flags spmat) = 1%nat)).
Proof.
  split; [reflexivity|]. intros m H.
  unfold CSRMatrix_of_SparseMatrix in H.
  apply bind_Ok in H as (parr & Hp & H). apply bind_Ok in H as (iarr & Hi & H).
  apply bind_Ok in H as (darr & Hd & H). apply bind_Ok in H as (s & Hs & H).
  apply bind_Ok in H as ([] & _ & H). injection H as <-.
  apply vector_at_Ok in Hp, Hi, Hd, Hs.
  destruct spmat as [fmt nr nc idx flg]. cbn [SparseMatrix.indices
    SparseMatrix.flags SparseMatrix.num_rows SparseMatrix.num_cols
    SparseMatrix.format] in *.
  destruct idx as [|a0 [|a1 [|a2 idx]]]; try discriminate.
  destruct flg as [|b0 flg]; try discriminate.
  cbn in Hp, Hi, Hd, Hs. injection Hp as <-. injection Hi as <-.
  injection Hd as <-. injection Hs as <-.
  unfold ToSparseMatrix. cbn [num_rows num_cols indptr indices data sorted take].
  split; [destruct flg; reflexivity|]. split.
  - intros E. injection E as E1 E2 E3. subst. auto.
  - intros (-> & Hl & Hf). destruct idx; [|discriminate Hl].
    destruct flg; [|discriminate Hf]. reflexivity.
Qed.

Lemma SparseMatrix_format_not_read_witness :
  ToSparseMatrix 2 example_csr =
    SparseMatrix.mk 2 4 4
      (take 3 [Some 0%nat; Some 1%nat; Some 2%nat; None]) (take 1 [false; true])
  /\
  (ToSparseMatrix 2 example_csr
     = SparseMatrix.mk 7 4 4 [Some 0%nat; Some 1%nat; Some 2%nat; None]
         [false; true]
   <-> 7 = 2 /\ length [Some 0%nat; Some 1%nat; Some 2%nat; @None nat] = 3%nat
       /\ length [false; true] = 1%nat).
Proof.
  apply (proj2 (SparseMatrix_format_not_read 2 example_heap
           (SparseMatrix.mk 7 4 4 [Some 0%nat; Some 1%nat; Some 2%nat; None]
              [false; true])) example_csr).
  reflexivity.
Defined.

(** ** Sorting and the store *)

(** [CSRSort] of a valid matrix whose flag is not set: the handles of the
    result and the store after it. *)
Lemma CSRSort_unsorted_handles (mark : bool) (h : Heap) (csr : CSRMatrix) :
  sorted csr = false ->
  CheckValidity h csr = Ok tt ->
  exists m1 tl,
    CSRSort mark h csr = Ok (m1, h ++ tl) /\
    indptr m1 = indptr csr /\
    num_rows m1 = num_rows csr /\ num_cols m1 = num_cols csr /\
    indices m1 = Some (length h) /\
    (CSRHasData csr = true -> data m1 = Some (S (length h))) /\
    (CSRHasData csr = false -> data m1 = None).
Proof.
  intros Hs HV. pose proof HV as HC. apply CheckValidity_checked in HC.
  destruct HC as (p & i & Hp & Hi & E1 & E2 & Hd & Hr & Hc & Hl).
  unfold CSRSort. rewrite Hs. unfold NDArray_Clone.
  rewrite (proj2 (deref_Ok _ _ _) Hi). cbn [mbind Result_bind alloc].
  unfold CSRHasData.
  destruct (data csr) as [ld|] eqn:ED; cbn [IsNullArray negb].
  - destruct Hd as (d & Hd & E3 & E4); [reflexivity|].
    rewrite (deref_app _ [i] _ _ (proj2 (deref_Ok _ _ _) Hd)).
    cbn [mbind Result_bind alloc]. rewrite <- app_assoc. cbn [app].
    rewrite length_app. cbn [length]. rewrite Nat.add_1_r.
    set (ret := {| num_rows := num_rows csr; num_cols := num_cols csr;
                   indptr := indptr csr; indices := Some (length h);
                   data := Some (S (length h)); sorted := false |}).
    assert (HVr : CheckValidity (h ++ [i; d]) ret = Ok tt).
    { apply CheckValidity_checked. exists p, i. repeat split; try assumption.
      - apply contents_app, Hp.
      - apply contents_middle.
      - intros _. exists d. repeat split; try assumption.
        apply contents_middle2. }
    unfold CSRMatrix_new. fold ret. rewrite HVr. cbn [mbind Result_bind].
    unfold CSRSort_, CSRHasData. cbn [indptr indices data ret IsNullArray negb].
    rewrite (deref_app _ [i; d] _ _ (proj2 (deref_Ok _ _ _) Hp)).
    rewrite (proj2 (deref_Ok _ _ _) (contents_middle h i [d])).
    rewrite (proj2 (deref_Ok _ _ _) (contents_middle2 h i d [])).
    cbn [mbind Result_bind].
    destruct (sort_arrays (elems p) (elems i) (Some (elems d))) as [ix dx] eqn:ES.
    assert (exists l, dx = Some l) as [l ->]
      by (cbn [sort_arrays] in ES; injection ES as <- <-; eauto).
    rewrite store_fresh.
    change (h ++ ?t :: [d]) with (h ++ [t] ++ [d]).
    rewrite app_assoc.
    replace (S (length h))
      with (length (h ++ [{| dtype := dtype i; ctx := ctx i; elems := ix |}]))
      by (rewrite length_app; simpl; lia).
    rewrite store_fresh. rewrite <- app_assoc. cbn [app].
    rewrite ?length_app. cbn [length]. rewrite ?Nat.add_1_r.
    eexists _, _. split; [reflexivity|].
    destruct mark; repeat split; intros; try reflexivity; try discriminate.
  - cbn [mbind Result_bind].
    set (ret := {| num_rows := num_rows csr; num_cols := num_cols csr;
                   indptr := indptr csr; indices := Some (length h);
                   data := None; sorted := false |}).
    assert (HVr : CheckValidity (h ++ [i]) ret = Ok tt).
    { apply CheckValidity_checked. exists p, i.
      repeat split; try assumption; try discriminate.
      - apply contents_app, Hp.
      - apply contents_middle. }
    unfold CSRMatrix_new. fold ret. rewrite HVr. cbn [mbind Result_bind].
    unfold CSRSort_, CSRHasData. cbn [indptr indices data ret IsNullArray negb].
    rewrite (deref_app _ [i] _ _ (proj2 (deref_Ok _ _ _) Hp)).
    rewrite (proj2 (deref_Ok _ _ _) (contents_middle h i [])).
    cbn [mbind Result_bind sort_arrays].
    rewrite store_fresh.
    eexists _, _. split; [reflexivity|].
    destruct mark; repeat split; intros; try reflexivity; try discriminate.
Qed.

Lemma CheckValidity_view (h : Heap) (m : CSRMatrix) :
  CheckValidity h m = Ok tt -> exists v, view h m = Ok v.
Proof.
  intros HV. apply CheckValidity_checked in HV.
  destruct HV as (p & i & Hp & Hi & _ & _ & Hd & _).
  destruct (data m) as [ld|] eqn:Edata.
  - destruct Hd as (d & Hd & _); [reflexivity|].
    eexists. apply (view_data h m p i d Hp Hi); rewrite Edata; auto.
  - eexists. apply (view_nodata h m p i Hp Hi Edata).
Qed.

(** X9. [CSRSort] does not write into its argument.  For a valid matrix
    whose flag is not set, the result shares the [indptr] buffer with the
    argument and has a buffer of its own for [indices], and one for [data]
    when the argument has data; these did not exist before, and every
    buffer that existed before, those of the argument among them, holds
    what it held. *)
Theorem CSRSort_keeps_argument (mark : bool) (h : Heap) (csr : CSRMatrix) :
  sorted csr = false ->
  CheckValidity h csr = Ok tt ->
  exists m1 h1,
    CSRSort mark h csr = Ok (m1, h1) /\
    indptr m1 = indptr csr /\
    num_rows m1 = num_rows csr /\ num_cols m1 = num_cols csr /\
    contents h (indices m1) = None /\
    is_Some (contents h1 (indices m1)) /\
    (CSRHasData csr = true ->
     contents h (data m1) = None /\ is_Some (contents h1 (data m1)) /\
     data m1 <> indices m1) /\
    (forall a t, contents h a = Some t -> contents h1 a = Some t).
Proof.
  intros Hs HV.
  destruct (CSRSort_unsorted_handles mark h csr Hs HV)
    as (m1 & tl & HS & Ep & Er & Ec & Ei & Ed & _).
  destruct (CheckValidity_view h csr HV) as [v Hv].
  destruct (CSRSort_unsorted mark h csr v Hs HV Hv)
    as (m1' & h1' & HS' & _ & HV1 & _ & _).
  rewrite HS in HS'. injection HS' as <- <-.
  apply CheckValidity_checked in HV1.
  destruct HV1 as (p1 & i1 & _ & Hi1 & _ & _ & Hd1 & _).
  exists m1, (h ++ tl). repeat split; try assumption.
  - rewrite Ei. simpl. apply lookup_ge_None. lia.
  - eauto.
  - rewrite (Ed H). simpl. apply lookup_ge_None. lia.
  - destruct Hd1 as (d1 & Hd1 & _); [rewrite (Ed H); reflexivity|]. eauto.
  - rewrite (Ed H), Ei. intros [= E]. lia.
  - intros a t. apply contents_app.
Qed.

Lemma CSRSort_keeps_argument_witness :
  exists m1 h1,
    CSRSort false example_heap example_csr = Ok (m1, h1) /\
    indptr m1 = indptr example_csr /\
    num_rows m1 = num_rows example_csr /\ num_cols m1 = num_cols example_csr /\
    contents example_heap (indices m1) = None /\
    is_Some (contents h1 (indices m1)) /\
    (CSRHasData example_csr = true ->
     contents example_heap (data m1) = None /\ is_Some (contents h1 (data m1)) /\
     data m1 <> indices m1) /\
    (forall a t, contents example_heap a = Some t -> contents h1 a = Some t).
Proof.
  apply (CSRSort_keeps_argument false example_heap example_csr); reflexivity.
Defined.

(** X10. The sorted flag short-cuts validation.  [CSRSort] returns a
    matrix whose sorted flag is set as it is, without any check.  For a
    matrix whose flag is not set and whose array handles are null or have
    a buffer, [CSRSort] goes through the checked constructor: it returns
    only if the matrix passes [CheckValidity], and fails fatally
    otherwise. *)
Theorem CSRSort_validates_unless_flagged
    (mark : bool) (h : Heap) (csr : CSRMatrix) :
  (sorted csr = true -> CSRSort mark h csr = Ok (csr, h)) /\
  (array_live h (indptr csr) ->
   array_live h (indices csr) ->
   array_live h (data csr) ->
   (forall r, CSRSort mark h csr = Ok r ->
      sorted csr = true \/ CheckValidity h csr = Ok tt) /\
   (sorted csr = false ->
    forall f, CheckValidity h csr = Err f ->
      exists f', CSRSort mark h csr = Err f')).
Proof.
  split.
  { intros Hs. unfold CSRSort. rewrite Hs. reflexivity. }
  intros Hlp Hli Hld.
  assert (Honly : forall r, CSRSort mark h csr = Ok r ->
            sorted csr = true \/ CheckValidity h csr = Ok tt).
  { intros r HS. destruct (sorted csr) eqn:Hs; [left; reflexivity|right].
    unfold CSRSort in HS. rewrite Hs in HS.
    apply bind_Ok in HS as ([iarr h1] & HCi & HS).
    apply bind_Ok in HS as ([darr h2] & HCd & HS).
    apply bind_Ok in HS as (ret & Hnew & _).
    apply CSRMatrix_new_Ok in Hnew as [-> HV].
    unfold NDArray_Clone in HCi. apply bind_Ok in HCi as (i & Hi & HCi).
    apply deref_Ok in Hi. injection HCi as <- <-.
    apply CheckValidity_checked in HV.
    destruct HV as (p & i' & Hp & Hi' & E1 & E2 & Hd & Hr & Hc & Hl).
    cbn [indptr indices data num_rows num_cols] in *.
    assert (Hp0 : contents h (indptr csr) = Some p).
    { destruct Hlp as [Hn|[p0 Hp0]].
      - destruct (indptr csr); [discriminate Hn|discriminate Hp].
      - assert (Hp2 : contents h2 (indptr csr) = Some p0).
        { unfold CSRHasData in HCd. destruct (negb _).
          - unfold NDArray_Clone in HCd.
            apply bind_Ok in HCd as (d & _ & HCd). injection HCd as <- <-.
            rewrite <- app_assoc. apply contents_app, Hp0.
          - injection HCd as <- <-. apply contents_app, Hp0. }
        congruence. }
    apply CheckValidity_checked. exists p, i.
    unfold CSRHasData in HCd.
    destruct (data csr) as [ld|] eqn:Edata; cbn [IsNullArray negb] in HCd.
    + destruct Hld as [Hn|[d Hd0]]; [discriminate Hn|].
      unfold NDArray_Clone in HCd.
      rewrite (deref_app _ [i] _ _ (proj2 (deref_Ok _ _ _) Hd0)) in HCd.
      cbn [mbind Result_bind alloc] in HCd. injection HCd as <- <-.
      rewrite <- app_assoc in Hi', Hd. cbn [app] in Hi', Hd.
      rewrite length_app in Hd. cbn [length] in Hd. rewrite Nat.add_1_r in Hd.
      rewrite contents_middle in Hi'. injection Hi' as <-.
      destruct Hd as (d' & Hd' & E3 & E4); [reflexivity|].
      rewrite contents_middle2 in Hd'. injection Hd' as <-.
      repeat split; try assumption. intros _. eauto.
    + injection HCd as <- <-. rewrite contents_last in Hi'.
      injection Hi' as <-. repeat split; try assumption; try discriminate. }
  split; [exact Honly|].
  intros Hs f Hf. destruct (CSRSort mark h csr) as [r|f'] eqn:HS; [|eauto].
  destruct (Honly r eq_refl) as [E|E]; congruence.
Qed.

Lemma CSRSort_validates_unless_flagged_witness :
  CSRSort true unchecked_heap (set_sorted true (set_num_rows 5 unchecked_csr))
    = Ok (set_sorted true (set_num_rows 5 unchecked_csr), unchecked_heap) /\
  (sorted example_csr = true \/ CheckValidity example_heap example_csr = Ok tt) /\
  exists f', CSRSort true unchecked_heap (set_num_rows 5 unchecked_csr) = Err f'.
Proof.
  split; [|split].
  - apply (proj1 (CSRSort_validates_unless_flagged true unchecked_heap
                    (set_sorted true (set_num_rows 5 unchecked_csr)))).
    reflexivity.
  - eapply (proj1 (proj2 (CSRSort_validates_unless_flagged true example_heap
                            example_csr)
                     (or_intror (ex_intro _ _ eq_refl))
                     (or_intror (ex_intro _ _ eq_refl))
                     (or_intror (ex_intro _ _ eq_refl)))).
    reflexivity.
  - eapply (proj2 (proj2 (CSRSort_validates_unless_flagged true unchecked_heap
                            (set_num_rows 5 unchecked_csr))
                     (or_intror (ex_intro _ _ eq_refl))
                     (or_intror (ex_intro _ _ eq_refl))
                     (or_intror (ex_intro _ _ eq_refl)))).
    + reflexivity.
    + reflexivity.
Defined.
